(** * Workflow audit pipeline: normalisation, state reconstruction and diff

    A shallow embedding of the three scripts of the repository

      - [scripts/ingest_codex_jsonl.py]      ([Module Ingest])
      - [scripts/compare_workflows.py]       ([Module Compare])
      - [scripts/run_workflow_simulation.py] ([Module Simulation])

    Python text is modelled as a [string] whose characters are the code
    points U+0000..U+00FF; the character classes of [str] and [re] are
    written out for exactly that range.  Dictionaries are [gmap]s, lists
    updated by index use stdpp's list insert, and the one dictionary that
    is mutated while references to copies of it are kept (the status
    accumulator of [build_state_snapshots]) lives in an explicit store. *)

From Stdlib Require Import Ascii QArith.
From stdpp Require Import gmap strings list fin_maps pretty.

#[local] Set Warnings "-register-all".
#[local] Close Scope Q_scope.
#[local] Open Scope string_scope.
#[local] Open Scope list_scope.
#[local] Open Scope nat_scope.

(** ** Python string primitives *)
Module PyStr.

Definition code (c : ascii) : N := N_of_ascii c.

Definition in_range (lo hi : N) (c : ascii) : bool :=
  ((lo <=? code c) && (code c <=? hi))%N.

(** [str.isspace] on one code point below 256; [\s] of [re] is the same
    set. *)
Definition is_space (c : ascii) : bool :=
  in_range 9 13 c || in_range 28 32 c
  || (code c =? 133)%N || (code c =? 160)%N.

(** [\d] of [re] on a [str] pattern: the decimal digits. *)
Definition is_decimal (c : ascii) : bool := in_range 48 57 c.

(** [\w] of [re]: [str.isalnum] or the underscore. *)
Definition is_word (c : ascii) : bool :=
  in_range 48 57 c || in_range 65 90 c || in_range 97 122 c
  || (code c =? 95)%N
  || (code c =? 170)%N || (code c =? 178)%N || (code c =? 179)%N
  || (code c =? 181)%N || (code c =? 185)%N || (code c =? 186)%N
  || in_range 188 190 c
  || in_range 192 214 c || in_range 216 246 c || in_range 248 255 c.

(** [str.lower] on one code point. *)
Definition lower_char (c : ascii) : ascii :=
  if in_range 65 90 c || in_range 192 214 c || in_range 216 222 c
  then ascii_of_N (code c + 32) else c.

Fixpoint lower (s : string) : string :=
  match s with
  | EmptyString => EmptyString
  | String c s' => String (lower_char c) (lower s')
  end.

Fixpoint lstrip (s : string) : string :=
  match s with
  | EmptyString => EmptyString
  | String c s' => if is_space c then lstrip s' else s
  end.

Fixpoint rstrip (s : string) : string :=
  match s with
  | EmptyString => EmptyString
  | String c s' =>
      let r := rstrip s' in
      if is_space c && String.eqb r EmptyString then EmptyString
      else String c r
  end.

Definition strip (s : string) : string := rstrip (lstrip s).

(** [s.startswith(p)] *)
Definition startswith (p s : string) : bool := String.prefix p s.

(** [s.endswith(p)] *)
Definition endswith (p s : string) : bool :=
  String.prefix (String.rev p) (String.rev s).

(** [sub in s] *)
Fixpoint contains (sub s : string) : bool :=
  String.prefix sub s
  || match s with
     | EmptyString => false
     | String _ s' => contains sub s'
     end.

(** Line boundaries of [str.splitlines] below U+0100. *)
Definition is_linebreak (c : ascii) : bool :=
  in_range 10 13 c || in_range 28 30 c || (code c =? 133)%N.

(** [splitlines_go after_cr cur s]: [cur] is the line read so far,
    [after_cr] tells that the previous character was a carriage return,
    so that a line feed right after it belongs to the same boundary. *)
Fixpoint splitlines_go (after_cr : bool) (cur s : string) : list string :=
  match s with
  | EmptyString => if String.eqb cur EmptyString then [] else [cur]
  | String c s' =>
      if after_cr && (code c =? 10)%N
      then splitlines_go false EmptyString s'
      else if is_linebreak c
           then cur :: splitlines_go (code c =? 13)%N EmptyString s'
           else splitlines_go false (cur +:+ String c EmptyString) s'
  end.

Definition splitlines (s : string) : list string :=
  splitlines_go false EmptyString s.

(** [s.split(sep, 1)] for a one-character separator gives [[s]] or
    [[before; after]]; [after_first sep s] is element 1 of that list,
    [None] when the list has one element only. *)
Fixpoint after_first (sep : ascii) (s : string) : option string :=
  match s with
  | EmptyString => None
  | String c s' => if Ascii.eqb c sep then Some s' else after_first sep s'
  end.

(** [sep.join(l)] *)
Definition join (sep : string) (l : list string) : string :=
  String.concat sep l.

(** *** The fragment of [re] the scripts use *)

(** A literal of a pattern compiled with [re.IGNORECASE], matched at the
    head of [s]: the text matched and the rest. *)
Fixpoint lit_ci (lit s : string) : option (string * string) :=
  match lit, s with
  | EmptyString, _ => Some (EmptyString, s)
  | String _ _, EmptyString => None
  | String a lit', String c s' =>
      if Ascii.eqb (lower_char a) (lower_char c)
      then match lit_ci lit' s' with
           | Some (m, rest) => Some (String c m, rest)
           | None => None
           end
      else None
  end.

(** A literal of a case-sensitive pattern. *)
Fixpoint lit_cs (lit s : string) : option string :=
  match lit, s with
  | EmptyString, _ => Some s
  | String _ _, EmptyString => None
  | String a lit', String c s' =>
      if Ascii.eqb a c then lit_cs lit' s' else None
  end.

(** Greedy repetition of a character class: the longest prefix in the
    class and the rest. *)
Fixpoint span (p : ascii -> bool) (s : string) : string * string :=
  match s with
  | EmptyString => (EmptyString, EmptyString)
  | String c s' =>
      if p c then let '(m, rest) := span p s' in (String c m, rest)
      else (EmptyString, s)
  end.

(** [re.search]: the match at the leftmost position where the pattern
    matches; [here] is the pattern anchored at the head, returning its
    group 1. *)
Fixpoint search (here : string -> option string) (s : string)
  : option string :=
  match here s with
  | Some g => Some g
  | None =>
      match s with
      | EmptyString => None
      | String _ s' => search here s'
      end
  end.

(** One or more characters of class [p], captured. *)
Definition plus_group (p : ascii -> bool) (s : string) : option string :=
  let '(m, _) := span p s in
  if String.eqb m EmptyString then None else Some m.

(** [STATUS:\s*(\w+)], case-sensitive or not. *)
Definition status_here (ignorecase : bool) (s : string) : option string :=
  let after :=
    if ignorecase then snd <$> lit_ci "STATUS:" s else lit_cs "STATUS:" s in
  match after with
  | Some rest => plus_group is_word (snd (span is_space rest))
  | None => None
  end.

End PyStr.

(** ** Python values read from JSON, and exceptions *)
Module Py.

(** A value produced by [json.loads]; a number is kept as a rational,
    which is enough for the only question the scripts ask of it outside
    timestamp parsing (is it zero). *)
Inductive json : Type :=
  | JNull
  | JBool (b : bool)
  | JNum (q : Q)
  | JStr (s : string)
  | JList (l : list json)
  | JObj (m : gmap string json).

Inductive exn : Type := TypeError | KeyError.

Inductive result (A : Type) : Type :=
  | Ok (a : A)
  | Raise (e : exn).
Arguments Ok {A} a.
Arguments Raise {A} e.

Definition bind {A B : Type} (m : result A) (f : A → result B) : result B :=
  match m with
  | Ok a => f a
  | Raise e => Raise e
  end.

Definition rmap {A B : Type} (f : A → B) (m : result A) : result B :=
  bind m (λ a, Ok (f a)).

Notation "'let*' x := m 'in' k" := (bind m (λ x, k))
  (at level 10, x pattern, m at level 100, k at level 200).

(** A loop whose body may raise. *)
Fixpoint foldM {S A : Type} (body : S → A → result S) (st : S) (l : list A)
  : result S :=
  match l with
  | [] => Ok st
  | x :: l' => let* st' := body st x in foldM body st' l'
  end.

(** Truth value of an object, as [or], [and], [if] and [not] test it. *)
Definition truthy (v : json) : bool :=
  match v with
  | JNull => false
  | JBool b => b
  | JNum q => negb (Qeq_bool q 0)
  | JStr s => negb (String.eqb s EmptyString)
  | JList l => match l with [] => false | _ => true end
  | JObj m => negb (bool_decide (m = ∅))
  end.

(** [a or b] *)
Definition py_or (a b : json) : json := if truthy a then a else b.

(** [d.get(key)] for a dictionary [d] *)
Definition get (d : gmap string json) (key : string) : json :=
  default JNull (d !! key).

(** [v == s] for a string literal [s] *)
Definition eq_str (v : json) (s : string) : bool :=
  match v with
  | JStr s' => String.eqb s' s
  | _ => false
  end.

(** [key in container] for a string [key]: key membership in a
    dictionary, substring test on a string, element test on a list, and
    a [TypeError] on anything else. *)
Definition py_in (key : string) (container : json) : result bool :=
  match container with
  | JObj m => Ok (bool_decide (is_Some (m !! key)))
  | JStr s => Ok (PyStr.contains key s)
  | JList l => Ok (existsb (λ v, eq_str v key) l)
  | _ => Raise TypeError
  end.

(** [container[key]] for a string [key] *)
Definition getitem (container : json) (key : string) : result json :=
  match container with
  | JObj m =>
      match m !! key with
      | Some v => Ok v
      | None => Raise KeyError
      end
  | _ => Raise TypeError
  end.

(** [sep.join(l)]: every element has to be a string. *)
Fixpoint strings_of (l : list json) : result (list string) :=
  match l with
  | [] => Ok []
  | JStr s :: l' => rmap (λ r, s :: r) (strings_of l')
  | _ :: _ => Raise TypeError
  end.

Definition join (sep : string) (l : list json) : result string :=
  rmap (PyStr.join sep) (strings_of l).

End Py.

(** ** [scripts/ingest_codex_jsonl.py] *)
Module Ingest.
Import PyStr Py.

Definition nl : string := String (ascii_of_N 10) EmptyString.

(** A raw event of the trace: one JSON object. *)
Abbreviation raw_event := (gmap string json).

(** [sender] and [recipient] are whatever [guess_actor] found in the
    metadata, which need not be a string. *)
Record EventRecord : Type := {
  sequence : nat;
  timestamp : string;
  sender : json;
  recipient : json;
  role : string;
  payload_type : string;
  content : string;
}.

Record ValidationResult : Type := {
  name : string;
  status : string;
  missing_sections : list string;
}.

(** [TODO ID:\s*(todo-\d+)] with [re.IGNORECASE], anchored at the head. *)
Definition todo_id_here (s : string) : option string :=
  match lit_ci "TODO ID:" s with
  | Some (_, rest) =>
      match lit_ci "todo-" (snd (span is_space rest)) with
      | Some (word, rest') =>
          (λ digits, word +:+ digits) <$> plus_group is_decimal rest'
      | None => None
      end
  | None => None
  end.

(** [TODO_ID_PATTERN.search(text)], group 1 of the match. *)
Definition TODO_ID_PATTERN_search (text : string) : option string :=
  search todo_id_here text.

Definition ensure_list (value : json) : list json :=
  match value with
  | JList l => l
  | _ => [value]
  end.

(** The test [key in event and "content" in event[key]] followed by
    [event[key]["content"]]: [Ok None] when the test fails. *)
Definition nested_content (event : raw_event) (key : string)
  : result (option json) :=
  match event !! key with
  | None => Ok None
  | Some inner =>
      let* b := py_in "content" inner in
      if b : bool then rmap Some (getitem inner "content") else Ok None
  end.

(** What one candidate appends to [extracted]. *)
Definition extract_candidate (candidate : json) : list json :=
  match candidate with
  | JStr _ => [candidate]
  | JObj d =>
      if eq_str (get d "type") "text" && bool_decide (is_Some (d !! "text"))
      then [get d "text"]
      else match d !! "value" with
           | Some (JStr v) => [JStr v]
           | _ => []
           end
  | _ => []
  end.

(** The [if]/[elif] chain that picks the candidates; [None] is the final
    [else], which returns the empty string at once. *)
Definition content_candidates (event : raw_event)
  : result (option (list json)) :=
  match event !! "content" with
  | Some c => Ok (Some (ensure_list c))
  | None =>
      let* m := nested_content event "message" in
      match m with
      | Some c => Ok (Some (ensure_list c))
      | None =>
          let* p := nested_content event "payload" in
          Ok (ensure_list <$> p)
      end
  end.

Definition flatten_text (event : raw_event) : result string :=
  let* chosen := content_candidates event in
  match chosen with
  | None => Ok EmptyString
  | Some candidates =>
      rmap strip (join nl (concat (extract_candidate <$> candidates)))
  end.

Definition ClassifierResult : Type := string * (string * string).

Definition classifier_orchestrator_payload (text : string)
  : option ClassifierResult :=
  if contains "OBJECTIVE:" text && contains "REQUIREMENTS:" text
     && contains "CONSTRAINTS:" text
  then Some ("coder_payload", ("orchestrator", "coder"))
  else if contains "SCOPE:" text && contains "PASS CRITERIA:" text
          && contains "ARTIFACT REQUESTS:" text
  then Some ("tester_payload", ("orchestrator", "tester"))
  else if startswith "ISSUE:" text && contains "DECISION OPTIONS:" text
  then Some ("stuck_payload", ("orchestrator", "stuck"))
  else None.

(** The first branch binds a status word and a role that it does not
    return. *)
Definition classifier_agent_response (text : string)
  : option ClassifierResult :=
  if contains "STATUS:" text && contains "DIFF:" text
     && contains "TESTS:" text
  then
    let status_line := search (status_here false) text in
    let status := default "unknown" (lower <$> status_line) in
    let payload_type := "coder_response" in
    let role := "completion" in
    let direction := ("coder", "orchestrator") in
    Some (payload_type, direction)
  else if contains "STATUS:" text && contains "VIEWPORTS:" text
          && contains "RECOMMENDATION:" text
  then Some ("tester_response", ("tester", "orchestrator"))
  else if startswith "HUMAN DECISION:" text
          && contains "ACTION REQUIRED:" text
  then Some ("stuck_response", ("stuck", "orchestrator"))
  else None.

Definition CLASSIFIERS : list (string → option ClassifierResult) :=
  [classifier_orchestrator_payload; classifier_agent_response].

(** The loop of [classify_event]; a result is a non-empty tuple, hence
    true. *)
Fixpoint first_result (classifiers : list (string → option ClassifierResult))
    (text : string) : option ClassifierResult :=
  match classifiers with
  | [] => None
  | classifier :: rest =>
      match classifier text with
      | Some result => Some result
      | None => first_result rest text
      end
  end.

Definition classify_event (text : string) : option ClassifierResult :=
  first_result CLASSIFIERS text.

Definition require_sections (text : string) (sections : list string)
    (name : string) : ValidationResult :=
  let missing :=
    filter (λ section, contains section text = false) sections in
  {| name := name;
     status := match missing with [] => "pass" | _ => "fail" end;
     missing_sections := missing |}.

Definition VALIDATION_RULES : gmap string (list string) :=
  list_to_map [
    ("coder_payload",
      ["TODO ID:"; "OBJECTIVE:"; "REQUIREMENTS:"; "CONSTRAINTS:";
       "OUTPUT FORMAT:"; "POST-CONDITIONS:"; "```diff"]);
    ("coder_response",
      ["TODO ID:"; "STATUS:"; "DIFF:"; "TESTS:"; "SUMMARY:"; "FOLLOW-UP:"]);
    ("tester_payload",
      ["TODO ID:"; "SCOPE:"; "VIEWPORTS:"; "ARTIFACT REQUESTS:";
       "PASS CRITERIA:"; "FAILURE HANDOFF:"]);
    ("tester_response",
      ["TODO ID:"; "STATUS:"; "VIEWPORTS:"; "STEPS:"; "ISSUES:";
       "RECOMMENDATION:"]);
    ("stuck_payload",
      ["ISSUE:"; "CONTEXT:"; "DECISION OPTIONS:"; "NEEDED BY:"]);
    ("stuck_response",
      ["HUMAN DECISION:"; "ACTION REQUIRED:"; "FOLLOW-UP:"])
  ].

Section Extract.
(** Two library functions stay abstract: [str] applied to a value that
    is not a string, and the reading of a time stamp, which parses
    dates and falls back on the clock. *)
Variable py_str : json → string.
Variable parse_timestamp : raw_event → string.

Definition str (v : json) : string :=
  match v with
  | JStr s => s
  | _ => py_str v
  end.

Definition is_dict (v : json) : bool :=
  match v with
  | JObj _ => true
  | _ => false
  end.

(** [d.get("name") or d.get("role") or "unknown"] *)
Definition name_or_role (v : json) : json :=
  match v with
  | JObj d => py_or (get d "name") (py_or (get d "role") (JStr "unknown"))
  | _ => JStr "unknown"
  end.

Definition guess_actor (event : raw_event) : json * json :=
  let actor :=
    py_or (get event "participant")
      (py_or (get event "actor")
         (py_or (get event "source") (JObj ∅))) in
  let name :=
    if is_dict actor then name_or_role actor else JStr (str actor) in
  let target :=
    py_or (get event "target") (py_or (get event "recipient") (JObj ∅)) in
  let target_name :=
    if is_dict target then name_or_role target
    else if truthy target then JStr (str target)
    else JStr "unknown" in
  (name, target_name).

(** The local state of the loop of [extract_events]. *)
Record Extraction : Type := {
  results : list EventRecord;
  validations : list ValidationResult;
  seq_counter : nat;
}.

Definition extract_one (st : Extraction) (raw : raw_event)
  : result Extraction :=
  let* text := flatten_text raw in
  if String.eqb text EmptyString then Ok st
  else
    match classify_event text with
    | None => Ok st
    | Some (payload_type, inferred_direction) =>
        let '(sender_guess, recipient_guess) := guess_actor raw in
        let '(sender0, recipient0) := inferred_direction in
        let sender :=
          if negb (eq_str sender_guess "unknown")
             && negb (eq_str sender_guess "assistant"
                      || eq_str sender_guess "system")
          then sender_guess else JStr sender0 in
        let recipient :=
          if negb (eq_str recipient_guess "unknown")
          then recipient_guess else JStr recipient0 in
        let sequence := S (seq_counter st) in
        let timestamp := parse_timestamp raw in
        let event :=
          {| sequence := sequence;
             timestamp := timestamp;
             sender := sender;
             recipient := recipient;
             role := if endswith "payload" payload_type
                     then "delegation" else "completion";
             payload_type := payload_type;
             content := text |} in
        let sections := default [] (VALIDATION_RULES !! payload_type) in
        let validations' :=
          match sections with
          | [] => validations st
          | _ =>
              let todo_fragment :=
                default payload_type (TODO_ID_PATTERN_search text) in
              validations st
              ++ [require_sections text sections
                    (payload_type +:+ "_" +:+ todo_fragment)]
          end in
        Ok {| results := results st ++ [event];
              validations := validations';
              seq_counter := sequence |}
    end.

Definition extract_events (events : list raw_event)
  : result (list EventRecord * list ValidationResult) :=
  rmap (λ st, (results st, validations st))
    (foldM extract_one
       {| results := []; validations := []; seq_counter := 0 |} events).

End Extract.

(** *** The state machine of [build_state_snapshots]

    [todo_status] is one dictionary object, mutated in place through the
    whole run, and every snapshot holds [dict(todo_status)], a new
    object.  Objects live in a store and are named by their position in
    it, so that whether a snapshot shares the accumulator is a property
    of the model and not an assumption. *)

Abbreviation loc := nat.
Abbreviation dict := (gmap string string).
Abbreviation store := (list (gmap string string)).

(** [D] is what the [todo_statuses] field holds: a reference ([loc]) in
    the running program, the dictionary itself once [asdict] has read
    it. *)
Record StateSnapshot (D : Type) : Type := {
  snap_timestamp : string;
  phase : string;
  active_todo : option string;
  todo_statuses : D;
  note : string;
}.
Arguments snap_timestamp {D} _.
Arguments phase {D} _.
Arguments active_todo {D} _.
Arguments todo_statuses {D} _.
Arguments note {D} _.

(** The local variables of one call, with the store. *)
Record Frame : Type := {
  heap : store;
  todo_status : loc;
  snapshots : list (StateSnapshot loc);
  active_todo_var : option string;
  phase_var : string;
}.

(** [d[key] = value] on the object at [l] *)
Definition setitem (l : loc) (key value : string) (h : store) : store :=
  alter (λ d : gmap string string, <[key := value]> d) l h.

(** [dict(d)] for the object at [l]: a new object with the same items. *)
Definition dict_copy (l : loc) (h : store) : store * loc :=
  (h ++ [h !!! l], length h).

Definition assign_phase (p : string) (fr : Frame) : Frame :=
  {| heap := heap fr; todo_status := todo_status fr;
     snapshots := snapshots fr; active_todo_var := active_todo_var fr;
     phase_var := p |}.

Definition assign_active_todo (t : option string) (fr : Frame) : Frame :=
  {| heap := heap fr; todo_status := todo_status fr;
     snapshots := snapshots fr; active_todo_var := t;
     phase_var := phase_var fr |}.

(** [todo_status[todo_id] = value] *)
Definition assign_status (todo_id value : string) (fr : Frame) : Frame :=
  {| heap := setitem (todo_status fr) todo_id value (heap fr);
     todo_status := todo_status fr;
     snapshots := snapshots fr; active_todo_var := active_todo_var fr;
     phase_var := phase_var fr |}.

Definition append_snapshot (note timestamp : string) (fr : Frame) : Frame :=
  let '(h, copy) := dict_copy (todo_status fr) (heap fr) in
  {| heap := h; todo_status := todo_status fr;
     snapshots :=
       snapshots fr
       ++ [{| snap_timestamp := timestamp;
              phase := phase_var fr;
              active_todo := active_todo_var fr;
              todo_statuses := copy;
              note := note |}];
     active_todo_var := active_todo_var fr;
     phase_var := phase_var fr |}.

(** [re.search(r"STATUS:\s*(\w+)", content, re.IGNORECASE)], then group 1
    in lower case, or the empty string. *)
Definition status_token (content : string) : string :=
  default EmptyString (lower <$> search (status_here true) content).

(** The body of the loop.  Every branch of the chain asks for
    [todo_id], which is [None] or a non-empty match, so the chain is
    entered only with an identifier. *)
Definition handle_event (fr : Frame) (event : EventRecord) : Frame :=
  match TODO_ID_PATTERN_search (content event) with
  | None => fr
  | Some todo_id =>
      let kind := payload_type event in
      let ts := timestamp event in
      if String.eqb kind "coder_payload" then
        append_snapshot ("Dispatching " +:+ todo_id +:+ " to coder.") ts
          (assign_status todo_id "in_progress"
             (assign_active_todo (Some todo_id)
                (assign_phase "dispatch" fr)))
      else if String.eqb kind "coder_response" then
        if String.eqb (status_token (content event)) "success" then
          append_snapshot
            ("Awaiting tester results for " +:+ todo_id +:+ ".") ts
            (assign_status todo_id "verifying"
               (assign_phase "verifying" fr))
        else
          append_snapshot
            ("Coder reported failure for " +:+ todo_id +:+ ".") ts
            (assign_status todo_id "blocked"
               (assign_phase "escalating" fr))
      else if String.eqb kind "tester_payload" then
        append_snapshot ("Tester engaged for " +:+ todo_id +:+ ".") ts
          (assign_phase "verifying" fr)
      else if String.eqb kind "tester_response" then
        if String.eqb (status_token (content event)) "pass" then
          append_snapshot
            ("Tester passed " +:+ todo_id +:+ "; returning to queue.") ts
            (assign_phase "dispatch"
               (assign_status todo_id "complete" fr))
        else
          append_snapshot
            ("Tester failed " +:+ todo_id +:+ "; escalating.") ts
            (assign_phase "escalating"
               (assign_status todo_id "blocked" fr))
      else if String.eqb kind "stuck_payload" then
        append_snapshot
          ("Escalating " +:+ todo_id +:+ " to stuck agent.") ts
          (assign_phase "escalating" fr)
      else if String.eqb kind "stuck_response" then
        append_snapshot
          ("Human guidance received for " +:+ todo_id +:+ ".") ts
          (assign_status todo_id "pending"
             (assign_phase "planning" fr))
      else fr
  end.

(** The frame at entry: an empty accumulator, the one object of the
    store. *)
Definition entry_frame : Frame :=
  {| heap := [∅]; todo_status := 0; snapshots := [];
     active_todo_var := None; phase_var := "bootstrap" |}.

(** The frame when the loop starts. *)
Definition start_frame (events : list EventRecord) : Frame :=
  match events with
  | [] => entry_frame
  | first :: _ =>
      append_snapshot "Captured session metadata from raw log."
        (timestamp first) entry_frame
  end.

(** The frame at [return snapshots]: the list returned, and the store
    its references point into. *)
Definition build_state_snapshots (events : list EventRecord) : Frame :=
  foldl handle_event (start_frame events) events.

(** [asdict(snapshot)]: the record with its dictionary read from the
    store. *)
Definition asdict (h : store) (s : StateSnapshot loc)
  : StateSnapshot (gmap string string) :=
  {| snap_timestamp := snap_timestamp s;
     phase := phase s;
     active_todo := active_todo s;
     todo_statuses := h !!! todo_statuses s;
     note := note s |}.

(** ["state_snapshots"] of the record [main] writes. *)
Definition state_snapshots (events : list EventRecord)
  : list (StateSnapshot (gmap string string)) :=
  let fr := build_state_snapshots events in
  asdict (heap fr) <$> snapshots fr.

End Ingest.

(** ** [scripts/compare_workflows.py] *)
Module Compare.
Import PyStr.

(** The keys of an event dictionary of a workflow file that the script
    reads. *)
Record Event : Type := {
  ev_payload_type : string;
  ev_content : string;
  ev_sender : string;
  ev_recipient : string;
}.

(** A state snapshot of a workflow file, as far as the script reads it. *)
Record Snapshot : Type := {
  phase : string;
  todo_statuses : gmap string string;
}.

(** A validation entry of a workflow file. *)
Record Validation : Type := {
  name : string;
  status : string;
  missing_sections : list string;
}.

(** A workflow file as [load_workflow] returns it. *)
Record Workflow : Type := {
  events : list Event;
  state_snapshots : list Snapshot;
  validations : list Validation;
}.

Record EventKey : Type := {
  payload_type : string;
  todo_id : string;
  sender : string;
  recipient : string;
}.

#[export] Instance EventKey_inhabited : Inhabited EventKey :=
  populate {| payload_type := EmptyString; todo_id := EmptyString;
              sender := EmptyString; recipient := EmptyString |}.

(** The test of the loop of [extract_event_key]. *)
Definition is_todo_line (line : string) : bool :=
  startswith "todo id:" (lower (strip line)).

(** [line.split(":", 1)[1].strip()]; a line that passed [is_todo_line]
    has a colon (lemma [todo_line_has_colon]), so element 1 exists. *)
Definition todo_of_line (line : string) : string :=
  strip (default EmptyString (after_first ":" line)).

Definition extract_event_key (event : Event) : EventKey :=
  let todo_id :=
    match List.find is_todo_line (splitlines (ev_content event)) with
    | Some line => todo_of_line line
    | None => "unknown"
    end in
  {| payload_type := ev_payload_type event;
     todo_id := todo_id;
     sender := ev_sender event;
     recipient := ev_recipient event |}.

(** The condition of the generator on the key, without the consumed
    flag. *)
Definition same_slot (key base_key : EventKey) : bool :=
  String.eqb (payload_type key) (payload_type base_key)
  && String.eqb (todo_id key) (todo_id base_key).

(** [next(i for i, key in enumerate(actual_keys) if ...)], scanning
    [keys] whose head has index [i]; [None] is [StopIteration]. *)
Fixpoint next_index (i : nat) (keys : list EventKey)
    (actual_consumed : list bool) (base_key : EventKey) : option nat :=
  match keys with
  | [] => None
  | key :: rest =>
      if negb (actual_consumed !!! i) && same_slot key base_key
      then Some i
      else next_index (S i) rest actual_consumed base_key
  end.

(** One round of the loop over [baseline_keys]; the state is
    [actual_consumed] and [missing]. *)
Definition match_one (actual_keys : list EventKey)
    (st : list bool * list string) (base_key : EventKey)
  : list bool * list string :=
  let '(actual_consumed, missing) := st in
  match next_index 0 actual_keys actual_consumed base_key with
  | Some idx =>
      let actual_consumed := <[idx := true]> actual_consumed in
      let actual_key := actual_keys !!! idx in
      if negb (String.eqb (sender actual_key) (sender base_key))
         || negb (String.eqb (recipient actual_key) (recipient base_key))
      then
        (actual_consumed,
         missing
         ++ ["Routing mismatch for " +:+ payload_type base_key +:+ " "
             +:+ todo_id base_key +:+ ": "
             +:+ "baseline " +:+ sender base_key +:+ "->"
             +:+ recipient base_key +:+ ", "
             +:+ "actual " +:+ sender actual_key +:+ "->"
             +:+ recipient actual_key])
      else (actual_consumed, missing)
  | None =>
      (actual_consumed,
       missing
       ++ ["Missing event " +:+ payload_type base_key +:+ " for "
           +:+ todo_id base_key])
  end.

(** The loop over [enumerate(actual_consumed)], from index [idx] on. *)
Fixpoint extra_from (idx : nat) (flags : list bool)
    (actual_keys : list EventKey) : list string :=
  match flags with
  | [] => []
  | consumed :: rest =>
      (if consumed then []
       else
         let key := actual_keys !!! idx in
         ["Unexpected event " +:+ payload_type key +:+ " for "
          +:+ todo_id key +:+ " (" +:+ sender key +:+ "->"
          +:+ recipient key +:+ ")"])
      ++ extra_from (S idx) rest actual_keys
  end.

(** [actual_consumed] and [missing] when the first loop ends. *)
Definition matching (baseline_events actual_events : list Event)
  : list bool * list string :=
  let baseline_keys := extract_event_key <$> baseline_events in
  let actual_keys := extract_event_key <$> actual_events in
  foldl (match_one actual_keys)
    (replicate (length actual_keys) false, []) baseline_keys.

Definition compare_events (baseline_events actual_events : list Event)
  : list string * list string :=
  let actual_keys := extract_event_key <$> actual_events in
  let '(actual_consumed, missing) :=
    matching baseline_events actual_events in
  (missing, extra_from 0 actual_consumed actual_keys).

Definition collect_validation_failures (validations : list Validation)
  : list string :=
  (λ entry, name entry +:+ " missing sections "
            +:+ join ", " (missing_sections entry))
    <$> filter (λ entry, status entry ≠ "pass") validations.

Section Snapshots.
(** The text an f-string gives for a dictionary. *)
Variable dict_repr : gmap string string → string.

(** The loop over [enumerate(baseline)], from index [idx] on. *)
Fixpoint snapshot_issues_from (idx : nat) (baseline actual : list Snapshot)
  : list string :=
  match baseline with
  | [] => []
  | base_snapshot :: rest =>
      match actual !! idx with
      | None =>
          ["Missing state snapshot #" +:+ pretty (idx + 1) +:+ " (phase "
           +:+ phase base_snapshot +:+ ") in actual run."]
      | Some actual_snapshot =>
          (if bool_decide (phase base_snapshot ≠ phase actual_snapshot)
           then ["Snapshot #" +:+ pretty (idx + 1)
                 +:+ " phase mismatch: baseline " +:+ phase base_snapshot
                 +:+ " vs actual " +:+ phase actual_snapshot]
           else [])
          ++
          (let base_todos := todo_statuses base_snapshot in
           let actual_todos := todo_statuses actual_snapshot in
           if bool_decide (base_todos ≠ actual_todos)
           then ["Snapshot #" +:+ pretty (idx + 1)
                 +:+ " todo statuses differ: baseline "
                 +:+ dict_repr base_todos +:+ " vs actual "
                 +:+ dict_repr actual_todos]
           else [])
      end
      ++ snapshot_issues_from (S idx) rest actual
  end.

Definition compare_state_snapshots (baseline actual : list Snapshot)
  : list string :=
  snapshot_issues_from 0 baseline actual
  ++ (if (length baseline <? length actual)%nat
      then ["Actual run contains "
            +:+ pretty (length actual - length baseline)
            +:+ " extra state snapshots."]
      else []).

(** The four lists of findings [main] computes before it prints. *)
Record Findings : Type := {
  missing_events : list string;
  extra_events : list string;
  validation_failures : list string;
  state_diffs : list string;
}.

Definition findings (baseline actual : Workflow) : Findings :=
  let '(missing_events, extra_events) :=
    compare_events (events baseline) (events actual) in
  {| missing_events := missing_events;
     extra_events := extra_events;
     validation_failures :=
       collect_validation_failures (validations actual);
     state_diffs :=
       compare_state_snapshots (state_snapshots baseline)
         (state_snapshots actual) |}.

(** The test before the confirmation line of [main]. *)
Definition matches_baseline (f : Findings) : bool :=
  bool_decide (missing_events f = []) && bool_decide (extra_events f = [])
  && bool_decide (validation_failures f = [])
  && bool_decide (state_diffs f = []).

End Snapshots.

End Compare.

(** ** [scripts/run_workflow_simulation.py] *)
Module Simulation.
Import PyStr.

Record Event : Type := {
  sequence : nat;
  timestamp : string;
  sender : string;
  recipient : string;
  role : string;
  payload_type : string;
  content : string;
}.

Record StateSnapshot : Type := {
  snap_timestamp : string;
  phase : string;
  active_todo : option string;
  todo_statuses : gmap string string;
  note : string;
}.

Record ValidationResult : Type := {
  name : string;
  status : string;
  missing_sections : list string;
}.

Definition require_sections (text : string) (sections : list string)
    (name : string) : ValidationResult :=
  let missing :=
    filter (λ section, contains section text = false) sections in
  let status := match missing with [] => "pass" | _ => "fail" end in
  {| name := name; status := status; missing_sections := missing |}.

(** The local variables of [build_simulation]. *)
Record Locals : Type := {
  events : list Event;
  snapshots : list StateSnapshot;
  validations : list ValidationResult;
  todo_queue : gmap string string;
  cur_active_todo : option string;
}.

Definition dq : string := String (ascii_of_N 34) EmptyString.

(** A triple-quoted literal, line by line. *)
Definition lines (l : list string) : string :=
  join (String (ascii_of_N 10) EmptyString) l.

Section Run.
(** [ts offset] is the start time plus [offset] seconds and
    [needed_by] the start time plus five minutes, both in ISO form;
    the start time is read from the clock. *)
Variable ts : nat → string.
Variable needed_by : string.

(** [snapshots.append(StateSnapshot(..., dict(todo_queue), ...))] *)
Definition record_snapshot (offset : nat) (phase note : string)
    (st : Locals) : Locals :=
  {| events := events st;
     snapshots :=
       snapshots st
       ++ [{| snap_timestamp := ts offset;
              phase := phase;
              active_todo := cur_active_todo st;
              todo_statuses := todo_queue st;
              note := note |}];
     validations := validations st;
     todo_queue := todo_queue st;
     cur_active_todo := cur_active_todo st |}.

(** [todo_queue[key] = value] *)
Definition set_status (key value : string) (st : Locals) : Locals :=
  {| events := events st; snapshots := snapshots st;
     validations := validations st;
     todo_queue := <[key := value]> (todo_queue st);
     cur_active_todo := cur_active_todo st |}.

(** [active_todo = value] *)
Definition set_active_todo (value : option string) (st : Locals)
  : Locals :=
  {| events := events st; snapshots := snapshots st;
     validations := validations st; todo_queue := todo_queue st;
     cur_active_todo := value |}.

(** [validations.append(require_sections(text, sections, name))] *)
Definition validate (text : string) (sections : list string)
    (name : string) (st : Locals) : Locals :=
  {| events := events st; snapshots := snapshots st;
     validations :=
       validations st ++ [require_sections text sections name];
     todo_queue := todo_queue st;
     cur_active_todo := cur_active_todo st |}.

(** [events.append(Event(sequence=len(events) + 1, ...))] *)
Definition emit (offset : nat) (sender recipient role payload_type
    content : string) (st : Locals) : Locals :=
  {| events :=
       events st
       ++ [{| sequence := length (events st) + 1;
              timestamp := ts offset;
              sender := sender;
              recipient := recipient;
              role := role;
              payload_type := payload_type;
              content := content |}];
     snapshots := snapshots st;
     validations := validations st; todo_queue := todo_queue st;
     cur_active_todo := cur_active_todo st |}.

Definition coder_payload_001 : string :=
  lines [
    "TODO ID: todo-001";
    "OBJECTIVE: Implement audit logger utility";
    "REQUIREMENTS:";
    "- Update module `src/audit/logger.py` to emit deterministic log entries.";
    "- Create tests in `tests/test_logger.py` verifying formatted output.";
    "- Ensure CLI command `python -m audit.logger --demo` prints a sample entry.";
    "CONSTRAINTS:";
    "- Follow deterministic templates";
    "- No TODOs or placeholders";
    "OUTPUT FORMAT:";
    "```diff";
    "<apply_patch style diff>";
    "```";
    "POST-CONDITIONS:";
    "- Tests listed above executed";
    "- Summary + verification log returned"
  ].

Definition coder_response_001 : string :=
  lines [
    "TODO ID: todo-001";
    "STATUS: success";
    "DIFF:";
    "```diff";
    "*** Begin Patch";
    "*** Add File: src/audit/logger.py";
    "+from datetime import datetime";
    "+";
    "+def emit_event(phase: str, message: str) -> str:";
    "+    timestamp = datetime.utcnow().strftime("
      +:+ dq
      +:+ "%Y-%m-%dT%H:%M:%SZ"
      +:+ dq
      +:+ ")";
    "+    return f"
      +:+ dq
      +:+ "[{timestamp}] {phase.upper()}: {message}"
      +:+ dq;
    "*** End Patch";
    "*** Begin Patch";
    "*** Add File: tests/test_logger.py";
    "+from audit.logger import emit_event";
    "+";
    "+def test_emit_event_formats_payload(monkeypatch):";
    "+    class _FakeDateTime:";
    "+        @classmethod";
    "+        def utcnow(cls):";
    "+            return type("
      +:+ dq
      +:+ "dt"
      +:+ dq
      +:+ ", (), {"
      +:+ dq
      +:+ "strftime"
      +:+ dq
      +:+ ": lambda self, fmt: "
      +:+ dq
      +:+ "2024-01-01T00:00:00Z"
      +:+ dq
      +:+ "})()";
    "+";
    "+    monkeypatch.setattr("
      +:+ dq
      +:+ "audit.logger.datetime"
      +:+ dq
      +:+ ", _FakeDateTime)";
    "+    result = emit_event("
      +:+ dq
      +:+ "dispatch"
      +:+ dq
      +:+ ", "
      +:+ dq
      +:+ "Invoked coder"
      +:+ dq
      +:+ ")";
    "+    assert result == "
      +:+ dq
      +:+ "[2024-01-01T00:00:00Z] DISPATCH: Invoked coder"
      +:+ dq;
    "*** End Patch";
    "```";
    "TESTS:";
    "- command: pytest tests/test_logger.py";
    "  exit_code: 0";
    "  output: |";
    "    ============================= test session starts ==============================";
    "    collected 1 item";
    "    tests/test_logger.py .                                                      [100%]";
    "    ============================== 1 passed in 0.02s ===============================";
    "SUMMARY:";
    "- Added audit logger helper with deterministic timestamp formatting and coverage test.";
    "FOLLOW-UP:";
    "- none"
  ].

Definition tester_payload_001 : string :=
  lines [
    "TODO ID: todo-001";
    "SCOPE:";
    "- Launch CLI demo via `python -m audit.logger --demo`.";
    "- Capture rendered log output exposed at http://localhost:4173/audit.";
    "VIEWPORTS:";
    "- 1280x720";
    "- 390x844";
    "ARTIFACT REQUESTS:";
    "- Screenshot filenames: todo-001-main-1280x720.png, todo-001-main-390x844.png";
    "- Console log capture if failures occur";
    "PASS CRITERIA:";
    "- Visual output contains `[YYYY-MM-DDTHH:MM:SSZ] DISPATCH: Invoked coder`.";
    "- No console errors during navigation.";
    "FAILURE HANDOFF:";
    "- Invoke stuck with screenshot + console summary"
  ].

Definition tester_response_001 : string :=
  lines [
    "TODO ID: todo-001";
    "STATUS: pass";
    "VIEWPORTS:";
    "- size: 1280x720";
    "  screenshot: todo-001-main-1280x720.png";
    "- size: 390x844";
    "  screenshot: todo-001-main-390x844.png";
    "STEPS:";
    "- action: navigate http://localhost:4173/audit";
    "  result: success";
    "  console_errors: []";
    "- action: verify rendered audit log entry";
    "  result: success";
    "  console_errors: []";
    "ISSUES:";
    "- none";
    "RECOMMENDATION:";
    "- ready for release"
  ].

Definition coder_payload_002 : string :=
  lines [
    "TODO ID: todo-002";
    "OBJECTIVE: Integrate audit logger into CLI entrypoint";
    "REQUIREMENTS:";
    "- Modify `cli/main.py` to call `emit_event` during startup.";
    "- Wire CLI argument `--demo` to print the formatted log message.";
    "- Update documentation in `README.md` to mention the new command.";
    "CONSTRAINTS:";
    "- Follow deterministic templates";
    "- No TODOs or placeholders";
    "OUTPUT FORMAT:";
    "```diff";
    "<apply_patch style diff>";
    "```";
    "POST-CONDITIONS:";
    "- Tests listed above executed";
    "- Summary + verification log returned"
  ].

Definition coder_response_002 : string :=
  lines [
    "TODO ID: todo-002";
    "STATUS: failed";
    "DIFF:";
    "```diff";
    "(no changes)";
    "```";
    "TESTS:";
    "- command: python cli/main.py --demo";
    "  exit_code: 1";
    "  output: |";
    "    Traceback (most recent call last):";
    "      File "
      +:+ dq
      +:+ "cli/main.py"
      +:+ dq
      +:+ ", line 3, in <module>";
    "        from audit.logger import emit_event";
    "    ModuleNotFoundError: No module named 'audit'";
    "SUMMARY:";
    "- Unable to import `audit.logger` from CLI entrypoint; package is missing.";
    "FOLLOW-UP:";
    "- Request guidance via stuck agent."
  ].

Definition stuck_payload : string :=
  lines [
    "ISSUE: ModuleNotFoundError for `audit.logger`";
    "CONTEXT:";
    "- Todo ID: todo-002";
    "- Last successful step: Planned CLI integration before executing demo command.";
    "- Error output: ModuleNotFoundError: No module named 'audit'";
    "DECISION OPTIONS:";
    "- Option A: Create `src/audit/__init__.py` and retry the command.";
    "- Option B: Update CLI execution environment to include project root on PYTHONPATH.";
    "- Option C: Request different approach.";
    "NEEDED BY: " +:+ needed_by
  ].

Definition stuck_response : string :=
  lines [
    "HUMAN DECISION: Option A";
    "ACTION REQUIRED:";
    "- Add `src/audit/__init__.py` so the package resolves.";
    "- Re-run `python cli/main.py --demo` to confirm the logger output.";
    "FOLLOW-UP:";
    "- none"
  ].

(** The statements of [build_simulation], in order. *)
Definition program : list (Locals → Locals) := [
  record_snapshot 0 "bootstrap"
    "Captured repository, sandbox, and instruction context.";
  set_status "todo-001" "pending";
  set_status "todo-002" "pending";
  record_snapshot 5 "planning"
    "Initialized todo queue with two deterministic items.";
  set_active_todo (Some "todo-001");
  set_status "todo-001" "in_progress";
  record_snapshot 10 "dispatch" "Dispatching todo-001 to coder.";
  validate coder_payload_001
    ["TODO ID:"; "OBJECTIVE:"; "REQUIREMENTS:"; "CONSTRAINTS:";
     "OUTPUT FORMAT:"; "POST-CONDITIONS:"; "```diff"]
    "coder_payload_todo-001";
  emit 12 "orchestrator" "coder" "delegation" "coder_payload"
    coder_payload_001;
  validate coder_response_001
    ["TODO ID:"; "STATUS:"; "DIFF:"; "```diff"; "TESTS:"; "SUMMARY:";
     "FOLLOW-UP:"]
    "coder_response_todo-001";
  emit 25 "coder" "orchestrator" "completion" "coder_response"
    coder_response_001;
  set_status "todo-001" "verifying";
  record_snapshot 26 "verifying"
    "Awaiting tester validation for todo-001 output.";
  validate tester_payload_001
    ["TODO ID:"; "SCOPE:"; "ARTIFACT REQUESTS:"; "PASS CRITERIA:";
     "FAILURE HANDOFF:"; "VIEWPORTS:"]
    "tester_payload_todo-001";
  emit 28 "orchestrator" "tester" "delegation" "tester_payload"
    tester_payload_001;
  validate tester_response_001
    ["TODO ID:"; "STATUS:"; "VIEWPORTS:"; "STEPS:"; "ISSUES:";
     "RECOMMENDATION:"]
    "tester_response_todo-001";
  emit 40 "tester" "orchestrator" "verification" "tester_response"
    tester_response_001;
  set_status "todo-001" "complete";
  set_active_todo None;
  record_snapshot 41 "dispatch"
    "Marked todo-001 complete and returning to queue.";
  set_active_todo (Some "todo-002");
  set_status "todo-002" "in_progress";
  record_snapshot 45 "dispatch" "Dispatching todo-002 to coder.";
  validate coder_payload_002
    ["TODO ID:"; "OBJECTIVE:"; "REQUIREMENTS:"; "CONSTRAINTS:";
     "OUTPUT FORMAT:"; "POST-CONDITIONS:"; "```diff"]
    "coder_payload_todo-002";
  emit 47 "orchestrator" "coder" "delegation" "coder_payload"
    coder_payload_002;
  validate coder_response_002
    ["TODO ID:"; "STATUS:"; "DIFF:"; "```diff"; "TESTS:"; "SUMMARY:";
     "FOLLOW-UP:"]
    "coder_response_todo-002";
  emit 60 "coder" "orchestrator" "completion" "coder_response"
    coder_response_002;
  set_status "todo-002" "blocked";
  record_snapshot 61 "escalating"
    "Coder reported failure importing audit package.";
  validate stuck_payload
    ["ISSUE:"; "CONTEXT:"; "DECISION OPTIONS:"; "NEEDED BY:";
     "Option A"; "Option B"; "Option C"]
    "stuck_payload_todo-002";
  emit 63 "orchestrator" "stuck" "escalation" "stuck_payload"
    stuck_payload;
  validate stuck_response
    ["HUMAN DECISION:"; "ACTION REQUIRED:"; "FOLLOW-UP:"]
    "stuck_response_todo-002";
  emit 75 "stuck" "orchestrator" "resolution" "stuck_response"
    stuck_response;
  set_status "todo-002" "pending";
  set_active_todo None;
  record_snapshot 76 "planning"
    "Updated todo-002 with human guidance; ready to redispatch."
].

(** The local variables at [return]; the record returned holds their
    [events], [snapshots] and [validations]. *)
Definition build_simulation : Locals :=
  foldl (λ st statement, statement st)
    {| events := []; snapshots := []; validations := [];
       todo_queue :=
         <["todo-002" := "pending"]> (<["todo-001" := "pending"]> ∅);
       cur_active_todo := None |}
    program.

End Run.

End Simulation.

(** * Properties *)

(** ** The classifier *)
Module ClassifierFacts.
Import PyStr Py Ingest.

(** One row of the predicate table of the specification: the markers
    that must all occur in the text, the prefix the text must have (if
    any), and what the row yields. *)
Record Row : Type := {
  kind : string;
  direction : string * string;
  required : list string;
  must_start : option string;
}.

(** The table, in its priority order. *)
Definition PRIORITY : list Row := [
  {| kind := "coder_payload"; direction := ("orchestrator", "coder");
     required := ["OBJECTIVE:"; "REQUIREMENTS:"; "CONSTRAINTS:"];
     must_start := None |};
  {| kind := "tester_payload"; direction := ("orchestrator", "tester");
     required := ["SCOPE:"; "PASS CRITERIA:"; "ARTIFACT REQUESTS:"];
     must_start := None |};
  {| kind := "stuck_payload"; direction := ("orchestrator", "stuck");
     required := ["DECISION OPTIONS:"]; must_start := Some "ISSUE:" |};
  {| kind := "coder_response"; direction := ("coder", "orchestrator");
     required := ["STATUS:"; "DIFF:"; "TESTS:"]; must_start := None |};
  {| kind := "tester_response"; direction := ("tester", "orchestrator");
     required := ["STATUS:"; "VIEWPORTS:"; "RECOMMENDATION:"];
     must_start := None |};
  {| kind := "stuck_response"; direction := ("stuck", "orchestrator");
     required := ["ACTION REQUIRED:"];
     must_start := Some "HUMAN DECISION:" |}
].

(** The predicate of a row. *)
Definition holds (r : Row) (text : string) : bool :=
  match must_start r with
  | Some p => startswith p text
  | None => true
  end
  && forallb (λ marker, contains marker text) (required r).

Definition outcome (r : Row) : ClassifierResult := (kind r, direction r).

(** First-match dispatch over a table. *)
Definition first_match (table : list Row) (text : string)
  : option ClassifierResult :=
  outcome <$> List.find (λ r, holds r text) table.

Lemma classify_event_refines (text : string) :
  classify_event text = first_match PRIORITY text.
Proof.
  unfold classify_event, CLASSIFIERS, first_result,
    classifier_orchestrator_payload, classifier_agent_response,
    first_match, PRIORITY, holds; simpl.
  repeat match goal with
         | |- context [contains ?m text] =>
             destruct (contains m text) eqn:?; simpl; try reflexivity
         | |- context [startswith ?m text] =>
             destruct (startswith m text) eqn:?; simpl; try reflexivity
         end.
Qed.

Lemma find_first_index {A : Type} (p : A → bool) (l : list A) (i : nat)
    (x : A) :
  l !! i = Some x → p x = true →
  ∃ m y, m ≤ i ∧ l !! m = Some y ∧ p y = true ∧ List.find p l = Some y
         ∧ ∀ m' y', m' < m → l !! m' = Some y' → p y' = false.
Proof.
  revert i. induction l as [|a l IH]; intros i Hi Hp; [done|].
  simpl. destruct (p a) eqn:Ha.
  - exists 0, a. split_and!; [lia|done|done|done|intros; lia].
  - destruct i as [|i]; simpl in Hi; [naive_solver congruence|].
    destruct (IH i Hi Hp) as (m & y & Hle & Hm & Hy & Hf & Hmin).
    exists (S m), y. split_and!; [lia|done|done|done|].
    intros [|m'] y' Hlt Hy'; simpl in Hy'; [congruence|].
    apply (Hmin m'); [lia|done].
Qed.

Lemma find_none_all {A : Type} (p : A → bool) (l : list A) :
  (∀ x, x ∈ l → p x = false) → List.find p l = None.
Proof.
  induction l as [|a l IH]; intros H; [done|].
  simpl. rewrite (H a) by constructor.
  apply IH. intros x Hx. apply H. by constructor.
Qed.

(** C6. [classify_event] is first-match dispatch over the table in the
    order coder_payload, tester_payload, stuck_payload, coder_response,
    tester_response, stuck_response: it returns what the earliest row
    whose predicate holds yields; so when the predicates of two rows
    hold, and of no other, the earlier of the two is the result; when no
    predicate holds there is no classification. *)
Theorem classify_event_priority (text : string) :
  kind <$> PRIORITY
    = ["coder_payload"; "tester_payload"; "stuck_payload";
       "coder_response"; "tester_response"; "stuck_response"]
  ∧ classify_event text = first_match PRIORITY text
  ∧ (∀ i r, PRIORITY !! i = Some r → holds r text = true →
       ∃ m first, m ≤ i ∧ PRIORITY !! m = Some first
         ∧ holds first text = true
         ∧ (∀ m' r', m' < m → PRIORITY !! m' = Some r' →
              holds r' text = false)
         ∧ classify_event text = Some (outcome first))
  ∧ (∀ i j earlier later,
       i < j → PRIORITY !! i = Some earlier → PRIORITY !! j = Some later →
       holds earlier text = true → holds later text = true →
       (∀ m r, PRIORITY !! m = Some r → holds r text = true →
          m = i ∨ m = j) →
       classify_event text = Some (outcome earlier))
  ∧ ((∀ r, r ∈ PRIORITY → holds r text = false) →
       classify_event text = None).
Proof.
  split; [reflexivity|]. split; [apply classify_event_refines|].
  assert (Hgen : ∀ i r, PRIORITY !! i = Some r → holds r text = true →
       ∃ m first, m ≤ i ∧ PRIORITY !! m = Some first
         ∧ holds first text = true
         ∧ (∀ m' r', m' < m → PRIORITY !! m' = Some r' →
              holds r' text = false)
         ∧ classify_event text = Some (outcome first)).
  { intros i r Hi Hr.
    destruct (find_first_index (λ r, holds r text) PRIORITY i r Hi Hr)
      as (m & y & Hle & Hm & Hy & Hf & Hmin).
    exists m, y. split_and!; try done.
    rewrite classify_event_refines. unfold first_match. by rewrite Hf. }
  split; [exact Hgen|]. split.
  - intros i j earlier later Hij Hi Hj He Hl Honly.
    destruct (Hgen i earlier Hi He) as (m & first & Hle & Hm & Hf & _ & Hc).
    destruct (Honly m first Hm Hf) as [-> | ->]; [|lia].
    rewrite Hc. congruence.
  - intros Hnone. rewrite classify_event_refines. unfold first_match.
    by rewrite find_none_all.
Qed.

Definition two_kinds : string :=
  "OBJECTIVE: a REQUIREMENTS: b CONSTRAINTS: c STATUS: ok DIFF: d TESTS: e".

Lemma classify_event_priority_witness :
  classify_event two_kinds
    = Some ("coder_payload", ("orchestrator", "coder")).
Proof.
  pose proof (classify_event_priority two_kinds)
    as (_ & _ & _ & Hpair & _).
  refine (Hpair 0 3 _ _ _ eq_refl eq_refl eq_refl eq_refl _).
  - lia.
  - intros m r Hm Hr.
    do 6 (destruct m as [|m]; [simpl in Hm; injection Hm as <-;
      first [by left | by right | vm_compute in Hr; discriminate]|]).
    discriminate.
Defined.

End ClassifierFacts.

(** ** The text flattener *)
Module FlattenFacts.
Import PyStr Py Ingest.

(** What the loop of [flatten_text] collects from a content value. *)
Definition extracted (c : json) : list json :=
  concat (extract_candidate <$> ensure_list c).

Lemma extracted_number (q : Q) : extracted (JNum q) = [].
Proof. reflexivity. Qed.

(** An object that has neither a ["text"] field next to
    [type == "text"] nor a string ["value"] field. *)
Definition lacks_text_and_value (d : gmap string json) : Prop :=
  ¬ (d !! "type" = Some (JStr "text") ∧ is_Some (d !! "text"))
  ∧ ∀ v, d !! "value" ≠ Some (JStr v).

Lemma eq_str_true (v : json) (s : string) :
  eq_str v s = true ↔ v = JStr s.
Proof.
  destruct v; simpl; try (split; [discriminate|congruence]).
  rewrite String.eqb_eq. split; congruence.
Qed.

Lemma extracted_object (d : gmap string json) :
  lacks_text_and_value d → extracted (JObj d) = [].
Proof.
  intros [Htext Hvalue]. unfold extracted. simpl.
  destruct (eq_str (get d "type") "text"
            && bool_decide (is_Some (d !! "text"))) eqn:E.
  - exfalso. apply Htext. apply andb_true_iff in E as [E1 E2].
    apply eq_str_true in E1. apply bool_decide_eq_true in E2.
    split; [|done]. unfold get in E1.
    destruct (d !! "type"); simpl in E1; congruence.
  - destruct (d !! "value") as [[]|] eqn:Ev; try reflexivity.
    by destruct (Hvalue s).
Qed.

Section WithLibrary.
Variable py_str : json → string.
Variable parse_timestamp : raw_event → string.

(** C10. When a raw event has a top-level ["content"] key, the text
    is computed from that value alone, whatever ["message"] and
    ["payload"] hold; when the value yields no string (a number, an
    object with neither a text field nor a string value field) the
    text is empty and [extract_events] skips the event.  *)
Theorem flatten_text_top_level_content (event : raw_event) (c : json) :
  event !! "content" = Some c →
  flatten_text event = rmap strip (join nl (extracted c))
  ∧ (∀ other : raw_event,
       other !! "content" = Some c →
       flatten_text other = flatten_text event)
  ∧ (∀ message payload,
       flatten_text
         (<["message" := message]> (<["payload" := payload]> event))
       = flatten_text event)
  ∧ (extracted c = [] →
       flatten_text event = Ok EmptyString
       ∧ (∀ st,
            extract_one py_str parse_timestamp st event = Ok st)
       ∧ extract_events py_str parse_timestamp [event] = Ok ([], []))
  ∧ ((∃ q, c = JNum q) ∨ (∃ d, c = JObj d ∧ lacks_text_and_value d) →
       extracted c = []).
Proof.
  intros Hc.
  assert (Hflat : ∀ e : raw_event, e !! "content" = Some c →
            flatten_text e = rmap strip (join nl (extracted c))).
  { intros e He. unfold flatten_text, content_candidates.
    rewrite He. reflexivity. }
  split; [by apply Hflat|]. split.
  { intros other Ho. by rewrite !Hflat. }
  split.
  { intros message payload. rewrite !Hflat; [done..|].
    by rewrite !lookup_insert_ne. }
  split.
  - intros Hnone.
    assert (Hempty : flatten_text event = Ok EmptyString).
    { rewrite Hflat by done. rewrite Hnone. reflexivity. }
    split; [done|].
    assert (Hskip : ∀ st,
              extract_one py_str parse_timestamp st event = Ok st).
    { intros st. unfold extract_one. rewrite Hempty. reflexivity. }
    split; [done|].
    unfold extract_events. simpl. rewrite Hskip. reflexivity.
  - intros [[q ->] | (d & -> & Hd)].
    + apply extracted_number.
    + by apply extracted_object.
Qed.

End WithLibrary.

(** A record whose top-level content is a number and whose message holds
    a complete coder payload. *)
Definition shadowed : raw_event :=
  <["content" := JNum 5]>
    (<["message" :=
         JObj {["content" :=
                  JStr "OBJECTIVE: a REQUIREMENTS: b CONSTRAINTS: c"]}]> ∅).

Lemma flatten_text_top_level_content_witness :
  flatten_text shadowed = Ok EmptyString
  ∧ extract_events (λ _, EmptyString) (λ _, EmptyString) [shadowed]
    = Ok ([], []).
Proof.
  pose proof (flatten_text_top_level_content (λ _, EmptyString)
                (λ _, EmptyString) shadowed (JNum 5) eq_refl)
    as (_ & _ & _ & Hskip & _).
  destruct (Hskip eq_refl) as (H1 & _ & H3).
  split; [exact H1 | exact H3].
Defined.

(** Without the top-level key the same message is read and classified. *)
Lemma message_read_without_content :
  flatten_text (delete "content" shadowed)
  = Ok "OBJECTIVE: a REQUIREMENTS: b CONSTRAINTS: c".
Proof. vm_compute. reflexivity. Qed.

End FlattenFacts.

(** ** The matching key of the diff *)
Module KeyFacts.
Import PyStr Compare.

Fixpoint occurs (c : ascii) (s : string) : bool :=
  match s with
  | EmptyString => false
  | String a s' => Ascii.eqb a c || occurs c s'
  end.

Lemma prefix_app (p s : string) :
  String.prefix p s = true → ∃ r, s = p +:+ r.
Proof.
  revert s. induction p as [|a p IH]; intros s H.
  - by exists s.
  - destruct s as [|b s]; simpl in H; [discriminate|].
    destruct (ascii_dec a b) as [->|]; [|discriminate].
    destruct (IH s H) as [r ->]. by exists r.
Qed.

Lemma occurs_app_r (c : ascii) (p r : string) :
  occurs c p = true → occurs c (p +:+ r) = true.
Proof.
  induction p as [|a p IH]; simpl; [discriminate|].
  intros [H|H]%orb_true_iff; apply orb_true_iff; auto.
Qed.

Lemma lower_char_colon (c : ascii) :
  lower_char c = ":"%char → c = ":"%char.
Proof.
  destruct c as [[] [] [] [] [] [] [] []]; vm_compute; congruence.
Qed.

Lemma occurs_lower (s : string) :
  occurs ":" (lower s) = true → occurs ":" s = true.
Proof.
  induction s as [|a s IH]; simpl; [done|].
  intros [H|H]%orb_true_iff; apply orb_true_iff; [left|right; auto].
  apply Ascii.eqb_eq in H. apply Ascii.eqb_eq. by apply lower_char_colon.
Qed.

Lemma occurs_lstrip (c : ascii) (s : string) :
  occurs c (lstrip s) = true → occurs c s = true.
Proof.
  induction s as [|a s IH]; simpl; [done|].
  destruct (is_space a); [|done].
  intros H. apply orb_true_iff. right. auto.
Qed.

Lemma occurs_rstrip (c : ascii) (s : string) :
  occurs c (rstrip s) = true → occurs c s = true.
Proof.
  induction s as [|a s IH]; simpl; [done|].
  destruct (is_space a && String.eqb (rstrip s) EmptyString);
    simpl; [discriminate|].
  intros [H|H]%orb_true_iff; apply orb_true_iff; auto.
Qed.

Lemma after_first_split (c : ascii) (s rest : string) :
  after_first c s = Some rest →
  ∃ head, s = head +:+ String c rest ∧ occurs c head = false.
Proof.
  revert rest. induction s as [|a s IH]; intros rest; simpl; [done|].
  destruct (Ascii.eqb a c) eqn:E.
  - intros [= ->]. apply Ascii.eqb_eq in E as ->. by exists EmptyString.
  - intros H. destruct (IH rest H) as (head & -> & Hh).
    exists (String a head). simpl. by rewrite E.
Qed.

Lemma occurs_after_first (c : ascii) (s : string) :
  occurs c s = true → is_Some (after_first c s).
Proof.
  induction s as [|a s IH]; simpl; [done|].
  destruct (Ascii.eqb a c); simpl; eauto.
Qed.

(** The index [1] of [line.split(":", 1)] in [extract_event_key] is
    always in range. *)
Lemma todo_line_has_colon (line : string) :
  is_todo_line line = true → is_Some (after_first ":" line).
Proof.
  unfold is_todo_line, startswith, strip. intros H.
  apply occurs_after_first, occurs_lstrip, occurs_rstrip, occurs_lower.
  destruct (prefix_app _ _ H) as [r ->].
  by apply occurs_app_r.
Qed.

Lemma find_split {A : Type} (p : A → bool) (before after : list A)
    (x : A) :
  Forall (λ y, p y = false) before → p x = true →
  List.find p (before ++ x :: after) = Some x.
Proof.
  induction 1 as [|y before Hy _ IH]; intros Hx; simpl.
  - by rewrite Hx.
  - rewrite Hy. by apply IH.
Qed.

Lemma find_Forall_none {A : Type} (p : A → bool) (l : list A) :
  Forall (λ y, p y = false) l → List.find p l = None.
Proof.
  induction 1 as [|y l Hy _ IH]; simpl; [done|]. by rewrite Hy.
Qed.

Definition free_form : Event :=
  {| ev_payload_type := "coder_payload";
     ev_content := "TODO ID: abc";
     ev_sender := "orchestrator";
     ev_recipient := "coder" |}.

(** C8, as stated, fails: a TODO ID line whose token is not of the form
    todo-<digits> (the pattern of the ingest script finds nothing in it)
    does not yield the sentinel, it yields the token. *)
Lemma extract_event_key_free_form :
  Ingest.TODO_ID_PATTERN_search (ev_content free_form) = None
  ∧ todo_id (extract_event_key free_form) = "abc"
  ∧ todo_id (extract_event_key free_form) ≠ "unknown".
Proof. vm_compute. split_and!; [reflexivity..|discriminate]. Qed.

Lemma after_first_app (c : ascii) (head rest : string) :
  occurs c head = false →
  after_first c (head +:+ String c rest) = Some rest.
Proof.
  induction head as [|a head IH]; simpl.
  - by rewrite Ascii.eqb_refl.
  - intros [Ha Hh]%orb_false_iff. rewrite Ha. auto.
Qed.

(** C8, amended. [extract_event_key] takes the first line of the content
    that, trimmed and in lower case, starts with [todo id:], and yields
    the trimmed text after the first colon of that line, whatever its
    form; it yields the sentinel [unknown] when no line starts so. *)
Theorem extract_event_key_todo_id (event : Event) :
  (Forall (λ l, is_todo_line l = false) (splitlines (ev_content event)) →
     todo_id (extract_event_key event) = "unknown")
  ∧ (∀ before line after head rest,
       splitlines (ev_content event) = before ++ line :: after →
       Forall (λ l, is_todo_line l = false) before →
       startswith "todo id:" (lower (strip line)) = true →
       line = head +:+ ":" +:+ rest → occurs ":" head = false →
       todo_id (extract_event_key event) = strip rest)
  ∧ (∀ line,
       startswith "todo id:" (lower (strip line)) = true →
       ∃ head rest, line = head +:+ ":" +:+ rest ∧ occurs ":" head = false).
Proof.
  split_and!.
  - intros Hnone. unfold extract_event_key. simpl.
    by rewrite find_Forall_none.
  - intros before line after head rest Hsplit Hbefore Hline -> Hhead.
    unfold extract_event_key. simpl. rewrite Hsplit.
    rewrite find_split by done.
    unfold todo_of_line.
    change (head +:+ ":" +:+ rest) with (head +:+ String ":" rest).
    by rewrite (after_first_app ":" head rest Hhead).
  - intros line Hline.
    destruct (todo_line_has_colon line Hline) as [rest Hrest].
    destruct (after_first_split _ _ _ Hrest) as (head & -> & Hhead).
    by exists head, rest.
Qed.

Definition release_note : Event :=
  {| ev_payload_type := "coder_payload";
     ev_content :=
       "Summary" +:+ Ingest.nl +:+ "  Todo Id:  release-7: final  "
       +:+ Ingest.nl +:+ "TODO ID: todo-001";
     ev_sender := "orchestrator";
     ev_recipient := "coder" |}.

Lemma extract_event_key_todo_id_witness :
  todo_id (extract_event_key release_note) = "release-7: final".
Proof.
  apply (proj1 (proj2 (extract_event_key_todo_id release_note))
           ["Summary"] "  Todo Id:  release-7: final  "
           ["TODO ID: todo-001"] "  Todo Id" "  release-7: final  ").
  - vm_compute. reflexivity.
  - repeat constructor.
  - vm_compute. reflexivity.
  - reflexivity.
  - vm_compute. reflexivity.
Defined.

(** The stuck payload of the simulated session names its item in a list
    entry, which does not start with [todo id:]. *)
Lemma extract_event_key_unknown :
  todo_id (extract_event_key
             {| ev_payload_type := "stuck_payload";
                ev_content := "ISSUE: x" +:+ Ingest.nl
                              +:+ "- Todo ID: todo-002";
                ev_sender := "orchestrator";
                ev_recipient := "stuck" |}) = "unknown".
Proof. vm_compute. reflexivity. Qed.

End KeyFacts.

(** ** The state machine: transitions *)
Module TransitionFacts.
Import PyStr Py Ingest.

(** The rows of the transition table, one lemma per branch of
    [handle_event]. *)
Section Branches.
Variables (fr : Frame) (event : EventRecord) (todo_id : string).
Hypothesis Hid : TODO_ID_PATTERN_search (content event) = Some todo_id.

Lemma on_coder_payload :
  payload_type event = "coder_payload" →
  handle_event fr event
  = append_snapshot ("Dispatching " +:+ todo_id +:+ " to coder.")
      (timestamp event)
      (assign_status todo_id "in_progress"
         (assign_active_todo (Some todo_id)
            (assign_phase "dispatch" fr))).
Proof. intros H. unfold handle_event. by rewrite Hid, H. Qed.

Lemma on_coder_success :
  payload_type event = "coder_response" →
  status_token (content event) = "success" →
  handle_event fr event
  = append_snapshot ("Awaiting tester results for " +:+ todo_id +:+ ".")
      (timestamp event)
      (assign_status todo_id "verifying" (assign_phase "verifying" fr)).
Proof. intros H Hs. unfold handle_event. by rewrite Hid, H, Hs. Qed.

Lemma on_coder_failure :
  payload_type event = "coder_response" →
  status_token (content event) ≠ "success" →
  handle_event fr event
  = append_snapshot ("Coder reported failure for " +:+ todo_id +:+ ".")
      (timestamp event)
      (assign_status todo_id "blocked" (assign_phase "escalating" fr)).
Proof.
  intros H Hs%String.eqb_neq. unfold handle_event.
  by rewrite Hid, H, Hs.
Qed.

Lemma on_tester_payload :
  payload_type event = "tester_payload" →
  handle_event fr event
  = append_snapshot ("Tester engaged for " +:+ todo_id +:+ ".")
      (timestamp event) (assign_phase "verifying" fr).
Proof. intros H. unfold handle_event. by rewrite Hid, H. Qed.

Lemma on_tester_pass :
  payload_type event = "tester_response" →
  status_token (content event) = "pass" →
  handle_event fr event
  = append_snapshot
      ("Tester passed " +:+ todo_id +:+ "; returning to queue.")
      (timestamp event)
      (assign_phase "dispatch" (assign_status todo_id "complete" fr)).
Proof. intros H Hs. unfold handle_event. by rewrite Hid, H, Hs. Qed.

Lemma on_tester_failure :
  payload_type event = "tester_response" →
  status_token (content event) ≠ "pass" →
  handle_event fr event
  = append_snapshot ("Tester failed " +:+ todo_id +:+ "; escalating.")
      (timestamp event)
      (assign_phase "escalating" (assign_status todo_id "blocked" fr)).
Proof.
  intros H Hs%String.eqb_neq. unfold handle_event.
  by rewrite Hid, H, Hs.
Qed.

Lemma on_stuck_payload :
  payload_type event = "stuck_payload" →
  handle_event fr event
  = append_snapshot ("Escalating " +:+ todo_id +:+ " to stuck agent.")
      (timestamp event) (assign_phase "escalating" fr).
Proof. intros H. unfold handle_event. by rewrite Hid, H. Qed.

Lemma on_stuck_response :
  payload_type event = "stuck_response" →
  handle_event fr event
  = append_snapshot ("Human guidance received for " +:+ todo_id +:+ ".")
      (timestamp event)
      (assign_status todo_id "pending" (assign_phase "planning" fr)).
Proof. intros H. unfold handle_event. by rewrite Hid, H. Qed.

End Branches.

(** An event without identifier drives no transition. *)
Lemma on_no_identifier (fr : Frame) (event : EventRecord) :
  TODO_ID_PATTERN_search (content event) = None →
  handle_event fr event = fr.
Proof. intros H. unfold handle_event. by rewrite H. Qed.

(** What the statements before [append_snapshot] do in a branch: they
    assign local variables and store at most one item into the
    accumulator. *)
Definition assigned (fr fr1 : Frame) : Prop :=
  todo_status fr1 = todo_status fr
  ∧ snapshots fr1 = snapshots fr
  ∧ (heap fr1 = heap fr
     ∨ ∃ key value,
         heap fr1 = setitem (todo_status fr) key value (heap fr)).

Lemma handle_event_shape (fr : Frame) (event : EventRecord) :
  handle_event fr event = fr
  ∨ ∃ note fr1,
      handle_event fr event = append_snapshot note (timestamp event) fr1
      ∧ assigned fr fr1.
Proof.
  unfold handle_event.
  destruct (TODO_ID_PATTERN_search (content event)) as [t|]; [|by left].
  repeat match goal with
         | |- context [String.eqb ?a ?b] => destruct (String.eqb a b)
         end;
    first [ by left
          | right; eexists _, _; split; [reflexivity|];
            unfold assigned; simpl; split_and!; eauto ].
Qed.

(** *** The store discipline *)

(** The accumulator is object 0 and every snapshot refers to a later
    object of the store. *)
Definition wf (fr : Frame) : Prop :=
  todo_status fr = 0
  ∧ 0 < length (heap fr)
  ∧ Forall (λ s, 0 < todo_statuses s < length (heap fr)) (snapshots fr).

(** From [fr] to [fr']: snapshots are only appended, objects are only
    added, and no object but the accumulator changes. *)
Definition stable (fr fr' : Frame) : Prop :=
  snapshots fr `prefix_of` snapshots fr'
  ∧ length (heap fr) ≤ length (heap fr')
  ∧ (∀ l, 0 < l < length (heap fr) → heap fr' !! l = heap fr !! l)
  ∧ dom (heap fr !!! 0) ⊆ dom (heap fr' !!! 0).

Lemma wf_entry : wf entry_frame.
Proof. unfold wf. simpl. split_and!; [done|lia|constructor]. Qed.

Lemma stable_refl (fr : Frame) : stable fr fr.
Proof. unfold stable. split_and!; [done|lia|done|done]. Qed.

Lemma stable_trans (a b c : Frame) : stable a b → stable b c → stable a c.
Proof.
  intros (P1 & L1 & H1 & D1) (P2 & L2 & H2 & D2). unfold stable.
  split_and!.
  - by etrans.
  - lia.
  - intros l Hl. rewrite H2 by lia. by apply H1.
  - by etrans.
Qed.

(** One appended snapshot: the new reference is a new object holding
    the items the accumulator has at that moment. *)
Lemma append_after_assigned (fr fr1 : Frame) (note ts : string) :
  wf fr → assigned fr fr1 →
  let fr' := append_snapshot note ts fr1 in
  wf fr' ∧ stable fr fr'
  ∧ ∃ s, snapshots fr' = snapshots fr ++ [s]
         ∧ s = {| snap_timestamp := ts; phase := phase_var fr1;
                  active_todo := active_todo_var fr1;
                  todo_statuses := length (heap fr); note := note |}
         ∧ heap fr' !!! todo_statuses s = heap fr' !!! todo_status fr'
         ∧ heap fr' !!! todo_status fr' = heap fr1 !!! todo_status fr1.
Proof.
  intros (Hts & Hlen & Hsn) (Hts1 & Hsn1 & Hheap). simpl.
  unfold append_snapshot, dict_copy. simpl.
  assert (Hlen1 : length (heap fr1) = length (heap fr)).
  { destruct Hheap as [->|(k & v & ->)]; [done|].
    unfold setitem. by rewrite length_alter. }
  assert (Hother : ∀ l, 0 < l → heap fr1 !! l = heap fr !! l).
  { intros l Hl. destruct Hheap as [->|(k & v & ->)]; [done|].
    unfold setitem. rewrite Hts. apply list_lookup_alter_ne. lia. }
  assert (Hdom : dom (heap fr !!! 0) ⊆ dom (heap fr1 !!! 0)).
  { destruct Hheap as [->|(k & v & ->)]; [done|].
    unfold setitem. rewrite Hts.
    rewrite list_lookup_total_alter_eq by done.
    rewrite dom_insert_L. set_solver. }
  rewrite Hts1, Hts, Hsn1, Hlen1.
  split_and!.
  - unfold wf. simpl. rewrite length_app, Hlen1. simpl.
    split_and!; [done|lia|].
    apply Forall_app. split.
    + eapply Forall_impl; [exact Hsn|]. simpl. intros; lia.
    + repeat constructor; simpl; lia.
  - unfold stable. simpl. split_and!.
    + by apply prefix_app_r.
    + rewrite length_app. lia.
    + intros l Hl. rewrite lookup_app_l by lia. apply Hother. lia.
    + by rewrite lookup_total_app_l by lia.
  - eexists. split; [reflexivity|]. simpl. split_and!; try done.
    + rewrite list_lookup_total_middle by done.
      by rewrite lookup_total_app_l by lia.
    + by rewrite lookup_total_app_l by lia.
Qed.

Lemma handle_event_wf (fr : Frame) (event : EventRecord) :
  wf fr → wf (handle_event fr event) ∧ stable fr (handle_event fr event).
Proof.
  intros Hwf.
  destruct (handle_event_shape fr event) as [->|(note & fr1 & -> & Ha)].
  - split; [done|apply stable_refl].
  - destruct (append_after_assigned fr fr1 note (timestamp event) Hwf Ha)
      as (? & ? & _). done.
Qed.

Lemma run_wf (events : list EventRecord) (fr : Frame) :
  wf fr →
  wf (foldl handle_event fr events)
  ∧ stable fr (foldl handle_event fr events).
Proof.
  revert fr. induction events as [|e events IH]; intros fr Hwf; simpl.
  - split; [done|apply stable_refl].
  - destruct (handle_event_wf fr e Hwf) as [Hwf1 Hst1].
    destruct (IH _ Hwf1) as [Hwf2 Hst2].
    split; [done|]. by eapply stable_trans.
Qed.

Lemma start_frame_wf (events : list EventRecord) : wf (start_frame events).
Proof.
  destruct events as [|first rest]; simpl; [apply wf_entry|].
  apply (append_after_assigned entry_frame entry_frame); [apply wf_entry|].
  unfold assigned. auto.
Qed.

Lemma build_wf (events : list EventRecord) :
  wf (build_state_snapshots events).
Proof. apply run_wf, start_frame_wf. Qed.

(** The run over a list with a non-empty prefix continues the run over
    the prefix. *)
Lemma build_app (pre post : list EventRecord) :
  pre ≠ [] →
  build_state_snapshots (pre ++ post)
  = foldl handle_event (build_state_snapshots pre) post.
Proof.
  intros Hne. unfold build_state_snapshots. rewrite foldl_app.
  destruct pre; [done|]. reflexivity.
Qed.

(** Reading the snapshots of [fr] in a later store gives the same
    records. *)
Lemma asdict_stable (fr fr' : Frame) :
  wf fr → stable fr fr' →
  asdict (heap fr') <$> snapshots fr = asdict (heap fr) <$> snapshots fr.
Proof.
  intros (_ & _ & Hsn) (_ & _ & Hsame & _).
  apply list_fmap_ext. intros i s Hs.
  rewrite Forall_lookup in Hsn. specialize (Hsn i s Hs).
  unfold asdict. f_equal.
  rewrite !list_lookup_total_alt. by rewrite Hsame.
Qed.

(** *** The run seen through [asdict] *)

(** The snapshots of a frame as [asdict] reads them, and the items of
    its accumulator. *)
Definition dicts (fr : Frame) : list (StateSnapshot (gmap string string)) :=
  asdict (heap fr) <$> snapshots fr.

Definition acc (fr : Frame) : gmap string string :=
  heap fr !!! todo_status fr.

Lemma acc_assign_status (fr : Frame) (key value : string) :
  wf fr → acc (assign_status key value fr) = <[key := value]> (acc fr).
Proof.
  intros (Hts & Hlen & _). unfold acc, assign_status, setitem. simpl.
  rewrite Hts. by rewrite list_lookup_total_alter_eq.
Qed.

Lemma dicts_append (fr fr1 : Frame) (note ts : string) :
  wf fr → assigned fr fr1 →
  dicts (append_snapshot note ts fr1)
  = dicts fr
    ++ [{| snap_timestamp := ts; phase := phase_var fr1;
           active_todo := active_todo_var fr1;
           todo_statuses := acc fr1; note := note |}]
  ∧ acc (append_snapshot note ts fr1) = acc fr1.
Proof.
  intros Hwf Ha.
  destruct (append_after_assigned fr fr1 note ts Hwf Ha)
    as (Hwf' & Hst & s & Hsn & Hs & Hcopy & Hacc).
  split; [|exact Hacc].
  unfold dicts. rewrite Hsn, fmap_app. f_equal.
  - by apply asdict_stable.
  - subst s. simpl in Hcopy, Hacc. unfold asdict, acc. simpl.
    by rewrite Hcopy, Hacc.
Qed.

(** One round of the loop: nothing happens, or one snapshot holding the
    accumulator's items is appended, and the accumulator never loses a
    key. *)
Lemma handle_event_dicts (fr : Frame) (event : EventRecord) :
  wf fr →
  let fr' := handle_event fr event in
  (dicts fr' = dicts fr ∧ acc fr' = acc fr)
  ∨ (∃ s, dicts fr' = dicts fr ++ [s] ∧ todo_statuses s = acc fr'
          ∧ dom (acc fr) ⊆ dom (acc fr')).
Proof.
  intros Hwf. simpl.
  destruct (handle_event_shape fr event) as [->|(note & fr1 & -> & Ha)];
    [by left|right].
  destruct (dicts_append fr fr1 note (timestamp event) Hwf Ha) as [Hd Hacc].
  eexists. split; [exact Hd|]. rewrite Hacc. split; [done|].
  destruct Hwf as (Hts & Hlen & _). destruct Ha as (Hts1 & _ & Hheap).
  unfold acc. rewrite Hts1, Hts.
  destruct Hheap as [->|(k & v & ->)]; [done|].
  unfold setitem. rewrite Hts, list_lookup_total_alter_eq by done.
  rewrite dom_insert_L. set_solver.
Qed.

(** The frame in which the last event of a list is handled. *)
Definition before_last (events : list EventRecord) (last : EventRecord)
  : Frame :=
  foldl handle_event (start_frame (events ++ [last])) events.

Lemma before_last_wf (events : list EventRecord) (last : EventRecord) :
  wf (before_last events last).
Proof. apply run_wf, start_frame_wf. Qed.

Lemma before_last_build (events : list EventRecord) (last : EventRecord) :
  events ≠ [] → before_last events last = build_state_snapshots events.
Proof. intros H. unfold before_last. by destruct events. Qed.

Lemma state_snapshots_snoc (events : list EventRecord)
    (last : EventRecord) :
  state_snapshots (events ++ [last])
  = dicts (handle_event (before_last events last) last).
Proof.
  unfold state_snapshots, build_state_snapshots, dicts, before_last.
  by rewrite foldl_app.
Qed.

End TransitionFacts.

(** ** The state machine: scenarios and invariants *)
Module SnapshotFacts.
Import PyStr Py Ingest TransitionFacts.

Definition event_of (kind text stamp : string) : EventRecord :=
  {| sequence := 0; timestamp := stamp; sender := JStr "orchestrator";
     recipient := JStr "coder"; role := "delegation";
     payload_type := kind; content := text |}.

(** The four events of the first item of the simulated session, with
    the texts of the simulation. *)
Definition happy_events : list EventRecord := [
  event_of "coder_payload" Simulation.coder_payload_001 "t12";
  event_of "coder_response" Simulation.coder_response_001 "t25";
  event_of "tester_payload" Simulation.tester_payload_001 "t28";
  event_of "tester_response" Simulation.tester_response_001 "t40"
].

(** C1. The events coder_payload, coder_response with status success,
    tester_payload, tester_response with status pass, all for todo-001,
    give exactly five snapshots, with phases bootstrap, dispatch,
    verifying, verifying, dispatch; the first carries the time stamp of
    the first event and the others the one of the event that triggered
    them; the last one maps todo-001 to complete. *)
Theorem happy_path (e1 e2 e3 e4 : EventRecord) :
  payload_type e1 = "coder_payload" →
  payload_type e2 = "coder_response" →
  payload_type e3 = "tester_payload" →
  payload_type e4 = "tester_response" →
  TODO_ID_PATTERN_search (content e1) = Some "todo-001" →
  TODO_ID_PATTERN_search (content e2) = Some "todo-001" →
  TODO_ID_PATTERN_search (content e3) = Some "todo-001" →
  TODO_ID_PATTERN_search (content e4) = Some "todo-001" →
  status_token (content e2) = "success" →
  status_token (content e4) = "pass" →
  let snaps := state_snapshots [e1; e2; e3; e4] in
  length snaps = 5
  ∧ phase <$> snaps
    = ["bootstrap"; "dispatch"; "verifying"; "verifying"; "dispatch"]
  ∧ snap_timestamp <$> snaps
    = [timestamp e1; timestamp e1; timestamp e2; timestamp e3;
       timestamp e4]
  ∧ ∃ final, last snaps = Some final
             ∧ todo_statuses final !! "todo-001" = Some "complete".
Proof.
  intros K1 K2 K3 K4 I1 I2 I3 I4 S2 S4.
  unfold state_snapshots, build_state_snapshots. cbn [foldl start_frame].
  rewrite (on_coder_payload _ e1 _ I1 K1).
  rewrite (on_coder_success _ e2 _ I2 K2 S2).
  rewrite (on_tester_payload _ e3 _ I3 K3).
  rewrite (on_tester_pass _ e4 _ I4 K4 S4).
  vm_compute. split_and!; [reflexivity..|].
  eexists. split; reflexivity.
Qed.

Lemma happy_path_witness :
  phase <$> state_snapshots happy_events
  = ["bootstrap"; "dispatch"; "verifying"; "verifying"; "dispatch"]
  ∧ ∃ final, last (state_snapshots happy_events) = Some final
             ∧ todo_statuses final !! "todo-001" = Some "complete".
Proof.
  destruct (happy_path
              (event_of "coder_payload" Simulation.coder_payload_001 "t12")
              (event_of "coder_response" Simulation.coder_response_001 "t25")
              (event_of "tester_payload" Simulation.tester_payload_001 "t28")
              (event_of "tester_response" Simulation.tester_response_001
                 "t40")
              eq_refl eq_refl eq_refl eq_refl eq_refl eq_refl eq_refl
              eq_refl eq_refl eq_refl)
    as (_ & Hphases & _ & Hfinal).
  split; [exact Hphases | exact Hfinal].
Defined.

(** C9 at the events of the happy path: the snapshot made when the
    tester has passed todo-001, which ends its dispatch, still names it
    as the active item. *)
Theorem active_todo_kept_after_pass :
  active_todo <$> state_snapshots happy_events
  = [None; Some "todo-001"; Some "todo-001"; Some "todo-001";
     Some "todo-001"].
Proof. vm_compute. reflexivity. Qed.

(** [build_state_snapshots] has no assignment that clears the active
    item: once set it stays set. *)
Lemma active_todo_never_cleared (fr : Frame) (event : EventRecord) :
  is_Some (active_todo_var fr) →
  is_Some (active_todo_var (handle_event fr event)).
Proof.
  intros H. unfold handle_event.
  destruct (TODO_ID_PATTERN_search (content event)); [|done].
  repeat match goal with
         | |- context [String.eqb ?a ?b] => destruct (String.eqb a b)
         end; simpl; eauto.
Qed.

(** C4. A coder_response that carries an identifier and whose status
    token is not [success] (the empty token of a text without status
    included) appends a snapshot with phase escalating and the item
    blocked; a later stuck_response with the same identifier appends a
    snapshot with phase planning and the item pending again. *)
Theorem failure_path (pre : list EventRecord) (e : EventRecord)
    (todo_id : string) :
  payload_type e = "coder_response" →
  TODO_ID_PATTERN_search (content e) = Some todo_id →
  status_token (content e) ≠ "success" →
  (∃ earlier s,
     state_snapshots (pre ++ [e]) = earlier ++ [s]
     ∧ (pre ≠ [] → earlier = state_snapshots pre)
     ∧ phase s = "escalating"
     ∧ todo_statuses s !! todo_id = Some "blocked"
     ∧ snap_timestamp s = timestamp e)
  ∧ (∀ mid r,
       payload_type r = "stuck_response" →
       TODO_ID_PATTERN_search (content r) = Some todo_id →
       ∃ s, state_snapshots (pre ++ [e] ++ mid ++ [r])
            = state_snapshots (pre ++ [e] ++ mid) ++ [s]
            ∧ phase s = "planning"
            ∧ todo_statuses s !! todo_id = Some "pending"
            ∧ snap_timestamp s = timestamp r)
  ∧ (∀ text,
       search (status_here true) text = None →
       status_token text = EmptyString ∧ status_token text ≠ "success").
Proof.
  intros Hk Hid Hst. split_and!.
  - pose proof (before_last_wf pre e) as Hwf.
    rewrite state_snapshots_snoc.
    rewrite (on_coder_failure _ e _ Hid Hk Hst).
    set (fr := before_last pre e) in *.
    set (fr1 := assign_status todo_id "blocked"
                  (assign_phase "escalating" fr)).
    assert (Ha : assigned fr fr1).
    { unfold assigned, fr1. simpl. split_and!; eauto. }
    destruct (dicts_append fr fr1
                ("Coder reported failure for " +:+ todo_id +:+ ".")
                (timestamp e) Hwf Ha) as [-> _].
    eexists _, _. split; [reflexivity|]. simpl. split_and!; try done.
    + intros Hne. unfold fr. by rewrite before_last_build.
    + unfold fr1. rewrite acc_assign_status by done.
      apply lookup_insert_eq.
  - intros mid r Hkr Hidr.
    assert (Hne : pre ++ [e] ++ mid ≠ []) by (by destruct pre).
    replace (pre ++ [e] ++ mid ++ [r]) with ((pre ++ [e] ++ mid) ++ [r])
      by (by rewrite <- !app_assoc).
    rewrite state_snapshots_snoc, before_last_build by done.
    pose proof (build_wf (pre ++ [e] ++ mid)) as Hwf.
    set (fr := build_state_snapshots (pre ++ [e] ++ mid)) in *.
    rewrite (on_stuck_response _ r _ Hidr Hkr).
    set (fr1 := assign_status todo_id "pending"
                  (assign_phase "planning" fr)).
    assert (Ha : assigned fr fr1).
    { unfold assigned, fr1. simpl. split_and!; eauto. }
    destruct (dicts_append fr fr1
                ("Human guidance received for " +:+ todo_id +:+ ".")
                (timestamp r) Hwf Ha) as [-> _].
    eexists. split; [reflexivity|]. simpl. split_and!; try done.
    unfold fr1. rewrite acc_assign_status by done.
    apply lookup_insert_eq.
  - intros text Hnone. unfold status_token. rewrite Hnone. simpl.
    split; [done|discriminate].
Qed.

(** The coder response of the second item of the simulated session,
    which reports a failure, and a human decision that names the item. *)
Definition failed_response : EventRecord :=
  event_of "coder_response" Simulation.coder_response_002 "t60".

Definition guidance : EventRecord :=
  event_of "stuck_response"
    ("HUMAN DECISION: Option A" +:+ nl +:+ "TODO ID: todo-002") "t75".

Lemma failure_path_witness :
  (∃ earlier s,
     state_snapshots (happy_events ++ [failed_response]) = earlier ++ [s]
     ∧ phase s = "escalating"
     ∧ todo_statuses s !! "todo-002" = Some "blocked")
  ∧ (∃ s, state_snapshots
            (happy_events ++ [failed_response] ++ [] ++ [guidance])
          = state_snapshots (happy_events ++ [failed_response] ++ [])
            ++ [s]
          ∧ phase s = "planning"
          ∧ todo_statuses s !! "todo-002" = Some "pending").
Proof.
  assert (Hst : status_token (content failed_response) ≠ "success")
    by (vm_compute; discriminate).
  destruct (failure_path happy_events failed_response "todo-002"
              eq_refl eq_refl Hst) as (Hfail & Hreset & _).
  split.
  - destruct Hfail as (earlier & s & H1 & _ & H3 & H4 & _).
    exists earlier, s. split_and!; [exact H1 | exact H3 | exact H4].
  - destruct (Hreset [] guidance eq_refl eq_refl) as (s & H1 & H2 & H3 & _).
    exists s. split_and!; [exact H1 | exact H2 | exact H3].
Defined.

(** *** Accumulation *)

(** Keys only accumulate along a list of snapshots that ends below the
    accumulator [a]. *)
Definition accumulating (a : gmap string string)
    (ds : list (StateSnapshot (gmap string string))) : Prop :=
  Forall (λ s, dom (todo_statuses s) ⊆ dom a) ds
  ∧ ∀ i j si sj, i < j → ds !! i = Some si → ds !! j = Some sj →
      dom (todo_statuses si) ⊆ dom (todo_statuses sj).

Lemma accumulating_snoc (a a' : gmap string string)
    (ds : list (StateSnapshot (gmap string string)))
    (s : StateSnapshot (gmap string string)) :
  accumulating a ds → dom a ⊆ dom a' → todo_statuses s = a' →
  accumulating a' (ds ++ [s]).
Proof.
  intros [Hbelow Hsorted] Hsub Hs. split.
  - apply Forall_app. split.
    + eapply Forall_impl; [exact Hbelow|]. simpl. intros; set_solver.
    + apply Forall_singleton. rewrite Hs. set_solver.
  - intros i j si sj Hij Hi Hj.
    assert (Hjlen : j < length (ds ++ [s])) by (by eapply lookup_lt_Some).
    rewrite length_app in Hjlen. simpl in Hjlen.
    rewrite lookup_app_l in Hi by lia.
    destruct (decide (j < length ds)) as [Hlt|Hge].
    + rewrite lookup_app_l in Hj by done. by apply (Hsorted i j).
    + assert (j = length ds) as -> by lia.
      rewrite list_lookup_middle in Hj by done. injection Hj as <-.
      rewrite Hs. rewrite Forall_lookup in Hbelow.
      specialize (Hbelow i si Hi). simpl in Hbelow. set_solver.
Qed.

Lemma accumulating_run (events : list EventRecord) (fr : Frame) :
  wf fr → accumulating (acc fr) (dicts fr) →
  accumulating (acc (foldl handle_event fr events))
    (dicts (foldl handle_event fr events)).
Proof.
  revert fr. induction events as [|e events IH]; intros fr Hwf Hacc;
    simpl; [done|].
  apply IH; [by apply handle_event_wf|].
  destruct (handle_event_dicts fr e Hwf) as [[-> ->]|(s & -> & Hs & Hsub)];
    [done|].
  by eapply accumulating_snoc.
Qed.

Lemma accumulating_start (events : list EventRecord) :
  accumulating (acc (start_frame events)) (dicts (start_frame events)).
Proof.
  destruct events as [|first rest]; simpl.
  - split; [constructor|]. intros i j si sj _ Hi. done.
  - assert (Ha : assigned entry_frame entry_frame)
      by (unfold assigned; auto).
    destruct (dicts_append entry_frame entry_frame
                "Captured session metadata from raw log."
                (timestamp first) wf_entry Ha) as [-> ->].
    eapply (accumulating_snoc (acc entry_frame)); [|done|done].
    split; [constructor|]. intros i j si sj _ Hi. done.
Qed.

(** C5. Along the snapshots of one run an identifier present in an
    earlier snapshot is present in every later one, a stuck_response
    putting the item back to pending and not removing it.  Every
    snapshot refers to an object of its own, made when the snapshot was
    appended with the items the accumulator had then, different from
    the accumulator, and unchanged by all later processing: the
    snapshots of a prefix of the events are the first snapshots of the
    whole run and read the same in the final store. *)
Theorem snapshots_accumulate (events : list EventRecord) :
  let final := build_state_snapshots events in
  (∀ i j si sj,
     i < j → state_snapshots events !! i = Some si →
     state_snapshots events !! j = Some sj →
     dom (todo_statuses si) ⊆ dom (todo_statuses sj))
  ∧ (∀ pre r todo_id,
       events = pre ++ [r] → payload_type r = "stuck_response" →
       TODO_ID_PATTERN_search (content r) = Some todo_id →
       ∃ s, last (state_snapshots events) = Some s
            ∧ todo_statuses s !! todo_id = Some "pending")
  ∧ (∀ s, s ∈ snapshots final → todo_statuses s ≠ todo_status final)
  ∧ (∀ pre post,
       events = pre ++ post →
       let earlier := build_state_snapshots pre in
       snapshots earlier `prefix_of` snapshots final
       ∧ (∀ s, s ∈ snapshots earlier →
            heap final !!! todo_statuses s
            = heap earlier !!! todo_statuses s)
       ∧ state_snapshots pre `prefix_of` state_snapshots events)
  ∧ (∀ pre e post,
       events = pre ++ e :: post →
       let before := foldl handle_event (start_frame events) pre in
       let after := handle_event before e in
       snapshots after = snapshots before
       ∨ ∃ s, snapshots after = snapshots before ++ [s]
              ∧ length (heap before) ≤ todo_statuses s
              ∧ heap final !!! todo_statuses s
                = heap after !!! todo_status after).
Proof.
  simpl. split_and!.
  - unfold state_snapshots, build_state_snapshots.
    apply (accumulating_run events (start_frame events)
             (start_frame_wf events) (accumulating_start events)).
  - intros pre r t -> Hk Hid.
    rewrite state_snapshots_snoc.
    pose proof (before_last_wf pre r) as Hwf.
    set (fr := before_last pre r) in *.
    rewrite (on_stuck_response _ r _ Hid Hk).
    set (fr1 := assign_status t "pending" (assign_phase "planning" fr)).
    assert (Ha : assigned fr fr1).
    { unfold assigned, fr1. simpl. split_and!; eauto. }
    destruct (dicts_append fr fr1
                ("Human guidance received for " +:+ t +:+ ".")
                (timestamp r) Hwf Ha) as [-> _].
    eexists. split; [apply last_snoc|]. simpl.
    unfold fr1. rewrite acc_assign_status by done.
    apply lookup_insert_eq.
  - intros s Hs.
    destruct (build_wf events) as (-> & _ & Hsn).
    rewrite Forall_forall in Hsn. specialize (Hsn s Hs). simpl in Hsn. lia.
  - intros pre post ->.
    destruct pre as [|p pre].
    { simpl. split_and!; [apply prefix_nil|intros s Hs; inversion Hs|
                          apply prefix_nil]. }
    rewrite build_app by done.
    pose proof (build_wf (p :: pre)) as Hwf.
    destruct (run_wf post _ Hwf) as [Hwf' Hst].
    set (earlier := build_state_snapshots (p :: pre)) in *.
    set (final := foldl handle_event earlier post) in *.
    split_and!.
    + apply Hst.
    + intros s Hs. destruct Hwf as (_ & _ & Hsn).
      rewrite Forall_forall in Hsn. specialize (Hsn s Hs). simpl in Hsn.
      destruct Hst as (_ & _ & Hsame & _).
      rewrite !list_lookup_total_alt. by rewrite Hsame.
    + unfold state_snapshots. rewrite build_app by done.
      fold earlier. fold final.
      rewrite <- (asdict_stable earlier final Hwf Hst).
      destruct Hst as ([k Hk] & _). rewrite Hk, fmap_app.
      by apply prefix_app_r.
  - intros pre e post ->.
    unfold build_state_snapshots. rewrite foldl_app. simpl.
    pose proof (proj1 (run_wf pre _ (start_frame_wf (pre ++ e :: post))))
      as Hwf.
    set (before := foldl handle_event (start_frame (pre ++ e :: post)) pre)
      in *.
    destruct (handle_event_shape before e) as [->|(note & fr1 & -> & Ha)];
      [by left|right].
    destruct (append_after_assigned before fr1 note (timestamp e) Hwf Ha)
      as (Hwf' & _ & s & Hsn & Hs & Hcopy & _).
    exists s. split; [done|]. split; [subst s; simpl; lia|].
    destruct (run_wf post _ Hwf') as [_ (_ & _ & Hsame & _)].
    rewrite <- Hcopy. rewrite !list_lookup_total_alt.
    rewrite Hsame; [done|].
    destruct Hwf' as (_ & _ & Hall). rewrite Hsn in Hall.
    apply Forall_app in Hall as [_ Hall].
    by inversion Hall.
Qed.

Definition full_run : list EventRecord :=
  happy_events ++ [failed_response; guidance].

Lemma snapshots_accumulate_witness :
  ∃ si sj,
    state_snapshots full_run !! 1 = Some si
    ∧ state_snapshots full_run !! 6 = Some sj
    ∧ dom (todo_statuses si) ⊆ dom (todo_statuses sj).
Proof.
  destruct (state_snapshots full_run !! 1) as [si|] eqn:Hi;
    [|vm_compute in Hi; discriminate].
  destruct (state_snapshots full_run !! 6) as [sj|] eqn:Hj;
    [|vm_compute in Hj; discriminate].
  exists si, sj. split_and!; [done..|].
  apply (proj1 (snapshots_accumulate full_run) 1 6 si sj); [lia|done..].
Defined.

End SnapshotFacts.

(** ** The event comparison *)
Module DiffFacts.
Import PyStr Compare.

(** The part of a key that decides a match. *)
Definition slot (k : EventKey) : string * string :=
  (payload_type k, todo_id k).

Lemma same_slot_true (k b : EventKey) :
  same_slot k b = true ↔ slot k = slot b.
Proof.
  unfold same_slot, slot. rewrite andb_true_iff, !String.eqb_eq.
  split; [intros [-> ->]; done | intros [= -> ->]; done].
Qed.

(** The actual event at index [j] is unconsumed and has the slot of the
    baseline key [b]. *)
Definition candidate (keys : list EventKey) (consumed : list bool)
    (b : EventKey) (j : nat) : Prop :=
  consumed !! j = Some false ∧ ∃ k, keys !! j = Some k ∧ slot k = slot b.

Definition first_candidate (keys : list EventKey) (consumed : list bool)
    (b : EventKey) (idx : nat) : Prop :=
  candidate keys consumed b idx
  ∧ ∀ j, j < idx → ¬ candidate keys consumed b j.

Lemma next_index_spec (all : list EventKey) (consumed : list bool)
    (b : EventKey) :
  length consumed = length all →
  ∀ keys i, keys = drop i all →
    match next_index i keys consumed b with
    | Some idx =>
        i ≤ idx ∧ candidate all consumed b idx
        ∧ ∀ j, i ≤ j → j < idx → ¬ candidate all consumed b j
    | None => ∀ j, i ≤ j → ¬ candidate all consumed b j
    end.
Proof.
  intros Hlen keys. induction keys as [|k rest IH]; intros i Hdrop; simpl.
  - intros j Hj (_ & k & Hk & _).
    apply (f_equal length) in Hdrop. rewrite length_drop in Hdrop.
    simpl in Hdrop. apply lookup_lt_Some in Hk. lia.
  - assert (Hi : all !! i = Some k).
    { replace i with (i + 0) by lia. by rewrite <- lookup_drop, <- Hdrop. }
    assert (Hrest : rest = drop (S i) all).
    { by rewrite (drop_S _ _ _ Hi) in Hdrop; injection Hdrop. }
    assert (Hilt : i < length consumed).
    { rewrite Hlen. by eapply lookup_lt_Some. }
    destruct (negb (consumed !!! i) && same_slot k b) eqn:E.
    + apply andb_true_iff in E as [E1 E2]. apply negb_true_iff in E1.
      split; [lia|]. split; [|intros; lia]. split.
      * rewrite list_lookup_lookup_total_lt by done. by rewrite E1.
      * exists k. split; [done|]. by apply same_slot_true.
    + assert (Hnot : ¬ candidate all consumed b i).
      { intros (Hc & k' & Hk' & Hs). rewrite Hi in Hk'. injection Hk' as <-.
        apply same_slot_true in Hs. rewrite Hs, andb_true_r in E.
        apply negb_false_iff in E.
        rewrite (list_lookup_total_correct _ _ _ Hc) in E. discriminate. }
      specialize (IH (S i) Hrest).
      destruct (next_index (S i) rest consumed b) as [idx|].
      * destruct IH as (Hle & Hc & Hmin). split; [lia|]. split; [done|].
        intros j Hj1 Hj2. destruct (decide (j = i)) as [->|]; [done|].
        apply Hmin; lia.
      * intros j Hj. destruct (decide (j = i)) as [->|]; [done|].
        apply IH; lia.
Qed.

(** The test on the routing of a matched pair. *)
Definition routing_differs (k b : EventKey) : bool :=
  negb (String.eqb (sender k) (sender b))
  || negb (String.eqb (recipient k) (recipient b)).

Lemma routing_differs_true (k b : EventKey) :
  routing_differs k b = true
  ↔ sender k ≠ sender b ∨ recipient k ≠ recipient b.
Proof.
  unfold routing_differs.
  by rewrite orb_true_iff, !negb_true_iff, !String.eqb_neq.
Qed.

Lemma routing_differs_false (k b : EventKey) :
  routing_differs k b = false
  ↔ sender k = sender b ∧ recipient k = recipient b.
Proof.
  unfold routing_differs.
  by rewrite orb_false_iff, !negb_false_iff, !String.eqb_eq.
Qed.

(** One round of the first loop. *)
Lemma match_one_cases (keys : list EventKey) (consumed : list bool)
    (missing : list string) (b : EventKey) :
  length consumed = length keys →
  (∃ idx k,
     first_candidate keys consumed b idx ∧ keys !! idx = Some k
     ∧ match_one keys (consumed, missing) b
       = (<[idx := true]> consumed,
          missing
          ++ (if routing_differs k b
              then ["Routing mismatch for " +:+ payload_type b +:+ " "
                    +:+ todo_id b +:+ ": " +:+ "baseline " +:+ sender b
                    +:+ "->" +:+ recipient b +:+ ", " +:+ "actual "
                    +:+ sender k +:+ "->" +:+ recipient k]
              else [])))
  ∨ ((∀ j, ¬ candidate keys consumed b j)
     ∧ match_one keys (consumed, missing) b
       = (consumed,
          missing ++ ["Missing event " +:+ payload_type b +:+ " for "
                      +:+ todo_id b])).
Proof.
  intros Hlen. unfold match_one.
  pose proof (next_index_spec keys consumed b Hlen keys 0 eq_refl) as Hspec.
  destruct (next_index 0 keys consumed b) as [idx|].
  - left. destruct Hspec as (_ & Hc & Hmin).
    pose proof Hc as (_ & k & Hk & _).
    exists idx, k. split; [|split; [done|]].
    + split; [done|]. intros j Hj. apply Hmin; lia.
    + rewrite (list_lookup_total_correct _ _ _ Hk).
      fold (routing_differs k b).
      destruct (routing_differs k b); [done|]. by rewrite app_nil_r.
  - right. split; [|done]. intros j. apply Hspec. lia.
Qed.

(** The greedy matching of the specification: [greedy keys consumed bs fs
    final] relates the flags before the baseline keys [bs] are processed
    to the findings they produce, in order, and the flags afterwards. *)
Inductive greedy (keys : list EventKey)
  : list bool → list EventKey → list string → list bool → Prop :=
  | greedy_done consumed : greedy keys consumed [] [] consumed
  | greedy_matched consumed b bs idx k fs final :
      first_candidate keys consumed b idx → keys !! idx = Some k →
      sender k = sender b → recipient k = recipient b →
      greedy keys (<[idx := true]> consumed) bs fs final →
      greedy keys consumed (b :: bs) fs final
  | greedy_routing consumed b bs idx k fs final :
      first_candidate keys consumed b idx → keys !! idx = Some k →
      sender k ≠ sender b ∨ recipient k ≠ recipient b →
      greedy keys (<[idx := true]> consumed) bs fs final →
      greedy keys consumed (b :: bs)
        (("Routing mismatch for " +:+ payload_type b +:+ " " +:+ todo_id b
          +:+ ": baseline " +:+ sender b +:+ "->" +:+ recipient b
          +:+ ", actual " +:+ sender k +:+ "->" +:+ recipient k) :: fs)
        final
  | greedy_missing consumed b bs fs final :
      (∀ j, ¬ candidate keys consumed b j) →
      greedy keys consumed bs fs final →
      greedy keys consumed (b :: bs)
        (("Missing event " +:+ payload_type b +:+ " for " +:+ todo_id b)
         :: fs)
        final.

Lemma match_run (keys : list EventKey) (bs : list EventKey) :
  ∀ consumed missing,
    length consumed = length keys →
    ∃ fs final,
      foldl (match_one keys) (consumed, missing) bs = (final, missing ++ fs)
      ∧ greedy keys consumed bs fs final
      ∧ length final = length keys.
Proof.
  induction bs as [|b bs IH]; intros consumed missing Hlen; cbn [foldl].
  - exists [], consumed. rewrite app_nil_r. split_and!; [done| |done].
    constructor.
  - destruct (match_one_cases keys consumed missing b Hlen)
      as [(idx & k & Hfirst & Hk & ->)|(Hnone & ->)].
    + match goal with
      | |- context [foldl _ (?c, ?m) bs] =>
          destruct (IH c m ltac:(by rewrite length_insert))
            as (fs & final & -> & Hg & Hlf)
      end.
      destruct (routing_differs k b) eqn:E.
      * eexists (_ :: fs), final. split_and!; [|eapply greedy_routing|]; eauto.
        -- by rewrite <- app_assoc.
        -- by apply routing_differs_true.
      * apply routing_differs_false in E as [E1 E2].
        exists fs, final. rewrite app_nil_r. split_and!; [done| |done].
        by eapply greedy_matched.
    + match goal with
      | |- context [foldl _ (?c, ?m) bs] =>
          destruct (IH c m Hlen) as (fs & final & -> & Hg & Hlf)
      end.
      eexists (_ :: fs), final. split_and!; [|eapply greedy_missing|]; eauto.
      by rewrite <- app_assoc.
Qed.

(** The actual events left unconsumed, in their order. *)
Definition unconsumed (keys : list EventKey) (flags : list bool)
  : list EventKey :=
  fst <$> filter (λ kc : EventKey * bool, kc.2 = false) (zip keys flags).

Lemma extra_from_spec (all : list EventKey) (flags : list bool) :
  ∀ i, i + length flags = length all →
    extra_from i flags all
    = (λ key, "Unexpected event " +:+ payload_type key +:+ " for "
              +:+ todo_id key +:+ " (" +:+ sender key +:+ "->"
              +:+ recipient key +:+ ")")
        <$> unconsumed (drop i all) flags.
Proof.
  induction flags as [|c flags IH]; intros i Hi; simpl.
  - unfold unconsumed. by rewrite zip_with_nil_r.
  - simpl in Hi.
    assert (Hlt : i < length all) by lia.
    rewrite (drop_S all (all !!! i) i)
      by (by apply list_lookup_lookup_total_lt).
    rewrite IH by lia. unfold unconsumed. simpl.
    rewrite filter_cons. by destruct c.
Qed.

Definition baseline_event : Event :=
  {| ev_payload_type := "coder_payload";
     ev_content := "TODO ID: todo-001";
     ev_sender := "orchestrator";
     ev_recipient := "coder" |}.

Definition misrouted_event : Event :=
  {| ev_payload_type := "coder_payload";
     ev_content := "TODO ID: todo-001";
     ev_sender := "orchestrator";
     ev_recipient := "tester" |}.

(** C2. [compare_events] processes the baseline events in order; for
    each one the first unconsumed actual event with the same payload type
    and identifier is consumed; if its sender or recipient differs,
    exactly one finding, a routing mismatch naming the direction of both,
    is produced for that baseline event, and none when both agree; if
    there is no such actual event the finding is a missing event.  After
    that each actual event left unconsumed gives exactly one extra-event
    finding.  For the baseline (coder_payload, todo-001, orchestrator,
    coder) against the actual (coder_payload, todo-001, orchestrator,
    tester) this is one routing mismatch and nothing else. *)
Theorem compare_events_greedy (baseline actual : list Event) :
  let keys := extract_event_key <$> actual in
  (∃ final,
     greedy keys (replicate (length keys) false)
       (extract_event_key <$> baseline) (compare_events baseline actual).1
       final
     ∧ length final = length keys
     ∧ (compare_events baseline actual).2
       = (λ key, "Unexpected event " +:+ payload_type key +:+ " for "
                 +:+ todo_id key +:+ " (" +:+ sender key +:+ "->"
                 +:+ recipient key +:+ ")")
           <$> unconsumed keys final
     ∧ length (compare_events baseline actual).2
       = length (filter (λ c, c = false) final))
  ∧ compare_events [baseline_event] [misrouted_event]
    = (["Routing mismatch for coder_payload todo-001: "
        +:+ "baseline orchestrator->coder, actual orchestrator->tester"],
       []).
Proof.
  simpl. split; [|vm_compute; reflexivity].
  unfold compare_events, matching.
  set (keys := extract_event_key <$> actual).
  destruct (match_run keys (extract_event_key <$> baseline)
              (replicate (length keys) false) []
              ltac:(by rewrite length_replicate))
    as (fs & final & -> & Hg & Hlen).
  exists final. simpl. split_and!; [done..| |].
  - rewrite (extra_from_spec keys final 0) by lia. by rewrite drop_0.
  - rewrite (extra_from_spec keys final 0) by lia. rewrite drop_0.
    unfold unconsumed. rewrite !length_fmap.
    clear -Hlen. revert final Hlen.
    induction keys as [|k keys IH]; intros [|c final] Hlen;
      simpl in *; try done.
    rewrite !filter_cons. destruct c; simpl; [|f_equal]; apply IH; lia.
Qed.

End DiffFacts.

(** ** A workflow compared with itself *)
Module SelfFacts.
Import PyStr Compare DiffFacts.

(** With the first [length seen] actual events consumed, the next
    baseline key, which is the actual key at that index, takes exactly
    that index and reports nothing. *)
Lemma match_self (all seen rest : list EventKey) (k : EventKey)
    (missing : list string) :
  all = seen ++ k :: rest →
  match_one all
    (replicate (length seen) true ++ replicate (S (length rest)) false,
     missing) k
  = (replicate (S (length seen)) true ++ replicate (length rest) false,
     missing).
Proof.
  intros Hall.
  set (consumed :=
         replicate (length seen) true ++ replicate (S (length rest)) false).
  assert (Hlen : length consumed = length all).
  { unfold consumed. rewrite Hall, !length_app, !length_replicate. done. }
  assert (Hcand : candidate all consumed k (length seen)).
  { split.
    - unfold consumed.
      rewrite lookup_app_r by (rewrite length_replicate; lia).
      by rewrite length_replicate, Nat.sub_diag.
    - exists k. split; [|done]. rewrite Hall. by apply list_lookup_middle. }
  destruct (match_one_cases all consumed missing k Hlen)
    as [(idx & k' & [Hc Hmin] & Hk' & ->)|(Hnone & _)];
    [|by destruct (Hnone (length seen))].
  assert (idx = length seen) as ->.
  { destruct (decide (idx < length seen)) as [Hlt|Hge].
    - destruct Hc as [Hc _]. unfold consumed in Hc.
      rewrite lookup_app_l in Hc by (rewrite length_replicate; lia).
      rewrite lookup_replicate_2 in Hc by lia. discriminate.
    - destruct (decide (length seen < idx)) as [Hgt|]; [|lia].
      by destruct (Hmin (length seen) Hgt). }
  assert (k' = k) as ->.
  { rewrite Hall, list_lookup_middle in Hk' by done. congruence. }
  f_equal.
  - unfold consumed.
    rewrite insert_app_r_alt by (rewrite length_replicate; lia).
    rewrite length_replicate, Nat.sub_diag.
    change (<[0 := true]> (replicate (S (length rest)) false))
      with (true :: replicate (length rest) false).
    by rewrite replicate_S_end, <- app_assoc.
  - unfold routing_differs. rewrite !String.eqb_refl. simpl.
    by rewrite app_nil_r.
Qed.

Lemma self_run (all : list EventKey) (missing : list string) :
  ∀ rest seen,
    all = seen ++ rest →
    foldl (match_one all)
      (replicate (length seen) true ++ replicate (length rest) false,
       missing) rest
    = (replicate (length all) true, missing).
Proof.
  induction rest as [|k rest IH]; intros seen Hall; cbn [foldl length].
  - rewrite Hall, !app_nil_r. done.
  - rewrite (match_self all seen rest k missing Hall).
    specialize (IH (seen ++ [k])).
    rewrite length_app in IH. simpl in IH. rewrite Nat.add_1_r in IH.
    apply IH. by rewrite <- app_assoc.
Qed.

Lemma extra_from_consumed (all : list EventKey) (n : nat) :
  ∀ i, extra_from i (replicate n true) all = [].
Proof. induction n as [|n IH]; intros i; simpl; [done|]. apply IH. Qed.

Lemma compare_events_self (evs : list Event) :
  compare_events evs evs = ([], []).
Proof.
  unfold compare_events, matching.
  pose proof (self_run (extract_event_key <$> evs) []
                (extract_event_key <$> evs) [] eq_refl) as Hrun.
  simpl in Hrun. rewrite Hrun.
  by rewrite extra_from_consumed.
Qed.

Section Snapshots.
Variable dict_repr : gmap string string → string.

Lemma snapshot_issues_self (all : list Snapshot) :
  ∀ rest seen,
    all = seen ++ rest →
    snapshot_issues_from dict_repr (length seen) rest all = [].
Proof.
  induction rest as [|s rest IH]; intros seen Hall; simpl; [done|].
  rewrite Hall at 1. rewrite list_lookup_middle by done.
  rewrite !bool_decide_eq_false_2 by (intros H; by apply H). simpl.
  specialize (IH (seen ++ [s])).
  rewrite length_app in IH. simpl in IH. rewrite Nat.add_1_r in IH.
  apply IH. by rewrite <- app_assoc.
Qed.

Lemma compare_state_snapshots_self (all : list Snapshot) :
  compare_state_snapshots dict_repr all all = [].
Proof.
  unfold compare_state_snapshots.
  pose proof (snapshot_issues_self all all [] eq_refl) as Hself.
  simpl in Hself. rewrite Hself.
  by rewrite Nat.ltb_irrefl.
Qed.

Lemma collect_validation_failures_nil (vs : list Validation) :
  collect_validation_failures vs = []
  ↔ Forall (λ v, status v = "pass") vs.
Proof.
  unfold collect_validation_failures.
  induction vs as [|v vs IH]; [by split; [constructor|]|].
  rewrite filter_cons. destruct (decide (status v ≠ "pass")) as [Hne|He].
  - simpl. split; [discriminate|]. intros H. by inversion H.
  - assert (status v = "pass") by (by destruct (decide (status v = "pass"))).
    rewrite IH. split; [by constructor|]. intros H'. by inversion H'.
Qed.

(** C3, amended. A workflow compared with itself gives no missing or
    mismatched event, no extra event and no state-snapshot difference;
    its validation findings are those of its own validations whose status
    is not pass, so there is none exactly when all its validations
    passed. *)
Theorem self_comparison (T : Workflow) :
  let f := findings dict_repr T T in
  missing_events f = [] ∧ extra_events f = [] ∧ state_diffs f = []
  ∧ validation_failures f = collect_validation_failures (validations T)
  ∧ (validation_failures f = []
     ↔ Forall (λ v, status v = "pass") (validations T))
  ∧ (matches_baseline f = true
     ↔ Forall (λ v, status v = "pass") (validations T)).
Proof.
  simpl. unfold findings. rewrite compare_events_self. simpl.
  rewrite compare_state_snapshots_self.
  split_and!; try done.
  - apply collect_validation_failures_nil.
  - unfold matches_baseline. simpl.
    rewrite andb_true_r, bool_decide_eq_true.
    apply collect_validation_failures_nil.
Qed.

End Snapshots.

Definition failed_validation : Workflow :=
  {| events :=
       [{| ev_payload_type := "coder_payload";
           ev_content := "TODO ID: todo-001";
           ev_sender := "orchestrator";
           ev_recipient := "coder" |}];
     state_snapshots := [];
     validations :=
       [{| name := "coder_payload_todo-001"; status := "fail";
           missing_sections := ["CONSTRAINTS:"] |}] |}.

(** C3, as stated, fails: a workflow in which one validation has failed,
    compared with itself, has a finding in the validation category. *)
Lemma self_comparison_reports_validation :
  validation_failures
    (findings (λ _, EmptyString) failed_validation failed_validation)
  = ["coder_payload_todo-001 missing sections CONSTRAINTS:"]
  ∧ matches_baseline
      (findings (λ _, EmptyString) failed_validation failed_validation)
    = false.
Proof. split; reflexivity. Qed.

End SelfFacts.

(** ** The role tag of events *)
Module RoleFacts.
Import PyStr Py.

(** What the data model says of the role of an event of a given kind. *)
Definition role_as_claimed (payload_type role : string) : Prop :=
  (role = "delegation" ↔ endswith "payload" payload_type = true)
  ∧ (payload_type = "tester_response" → role = "verification")
  ∧ (payload_type = "stuck_response" → role = "resolution").

(** What [extract_events] guarantees of it. *)
Definition ingest_role (e : Ingest.EventRecord) : Prop :=
  (Ingest.role e = "delegation"
   ↔ endswith "payload" (Ingest.payload_type e) = true)
  ∧ (Ingest.payload_type e = "coder_response"
     → Ingest.role e = "completion").

(** The events of the simulated session with the time stamps left out. *)
Definition simulated_events : list Simulation.Event :=
  Simulation.events
    (Simulation.build_simulation (λ _, EmptyString) EmptyString).

(** C7, as stated, fails: the simulated session has a stuck_payload
    event, whose kind ends in payload, with role escalation. *)
Lemma stuck_payload_is_escalation :
  ∃ e, simulated_events !! 6 = Some e
       ∧ Simulation.payload_type e = "stuck_payload"
       ∧ Simulation.role e = "escalation"
       ∧ ¬ role_as_claimed (Simulation.payload_type e) (Simulation.role e).
Proof.
  destruct (simulated_events !! 6) as [e|] eqn:He;
    [|vm_compute in He; discriminate].
  exists e. vm_compute in He. injection He as <-.
  split_and!; [reflexivity..|].
  intros [[_ H] _]. simpl in H. specialize (H eq_refl). discriminate.
Qed.

Section WithLibrary.
Variable py_str : json → string.
Variable parse_timestamp : gmap string json → string.
Variable ts : nat → string.
Variable needed_by : string.

Lemma extract_one_roles (st st' : Ingest.Extraction)
    (raw : gmap string json) :
  Ingest.extract_one py_str parse_timestamp st raw = Ok st' →
  Forall ingest_role (Ingest.results st) →
  Forall ingest_role (Ingest.results st').
Proof.
  unfold Ingest.extract_one.
  destruct (Ingest.flatten_text raw) as [text|]; simpl; [|discriminate].
  destruct (String.eqb text EmptyString); [by intros [= <-]|].
  destruct (Ingest.classify_event text) as [[kind [s r]]|];
    [|by intros [= <-]].
  destruct (Ingest.guess_actor py_str raw) as [sg rg].
  intros [= <-] Hall. simpl.
  apply Forall_app. split; [done|]. apply Forall_singleton.
  unfold ingest_role. simpl.
  destruct (endswith "payload" kind) eqn:E.
  - split; [done|]. intros ->. vm_compute in E. discriminate.
  - split; [|done]. split; discriminate.
Qed.

Lemma foldM_roles (raw : list (gmap string json)) :
  ∀ st st' : Ingest.Extraction,
    foldM (Ingest.extract_one py_str parse_timestamp) st raw = Ok st' →
    Forall ingest_role (Ingest.results st) →
    Forall ingest_role (Ingest.results st').
Proof.
  induction raw as [|x raw IH]; intros st st'; simpl.
  - by intros [= <-].
  - destruct (Ingest.extract_one py_str parse_timestamp st x) as [st1|] eqn:E;
      simpl; [|discriminate].
    intros Hrun Hall. apply (IH st1 st' Hrun).
    by apply (extract_one_roles st st1 x).
Qed.

(** C7, amended. In every event [extract_events] records the role is
    delegation exactly when the kind ends in payload, and a
    coder_response has role completion; the events of the simulated
    session carry delegation for coder and tester payloads, escalation
    for the stuck payload, and completion, verification and resolution
    for the coder, tester and stuck responses. *)
Theorem roles_by_producer (raw : list (gmap string json))
    (events : list Ingest.EventRecord)
    (validations : list Ingest.ValidationResult) :
  Ingest.extract_events py_str parse_timestamp raw
  = Ok (events, validations) →
  Forall ingest_role events
  ∧ (λ e, (Simulation.payload_type e, Simulation.role e))
      <$> Simulation.events (Simulation.build_simulation ts needed_by)
    = [("coder_payload", "delegation"); ("coder_response", "completion");
       ("tester_payload", "delegation");
       ("tester_response", "verification");
       ("coder_payload", "delegation"); ("coder_response", "completion");
       ("stuck_payload", "escalation"); ("stuck_response", "resolution")].
Proof.
  intros Hrun. split; [|vm_compute; reflexivity].
  unfold Ingest.extract_events, rmap, bind in Hrun.
  destruct (foldM _ _ raw) as [st'|] eqn:E; [|discriminate].
  injection Hrun as <- _.
  apply (foldM_roles raw _ st' E). constructor.
Qed.

End WithLibrary.

(** A trace of two records: a coder payload as bare text, and a tester
    response as a list of text parts sent by a participant named
    tester. *)
Definition two_records : list (gmap string json) := [
  {["content" :=
      JStr ("TODO ID: todo-001" +:+ Ingest.nl
            +:+ "OBJECTIVE: a REQUIREMENTS: b CONSTRAINTS: c")]};
  <["participant" := JObj {["name" := JStr "tester"]}]>
    {["content" :=
        JList [JObj (<["type" := JStr "text"]>
                       {["text" := JStr "TODO ID: todo-001"]});
               JObj (<["type" := JStr "text"]>
                       {["text" :=
                           JStr "STATUS: pass VIEWPORTS: RECOMMENDATION:"]})]
    ]}
].

Lemma roles_by_producer_witness :
  ∃ events validations,
    Ingest.extract_events (λ _, EmptyString) (λ _, EmptyString) two_records
    = Ok (events, validations)
    ∧ Ingest.payload_type <$> events = ["coder_payload"; "tester_response"]
    ∧ Forall ingest_role events.
Proof.
  destruct (Ingest.extract_events (λ _, EmptyString) (λ _, EmptyString)
              two_records) as [[events validations]|] eqn:H;
    [|vm_compute in H; discriminate].
  exists events, validations. split; [done|]. split.
  - vm_compute in H. by injection H as <- <-.
  - apply (roles_by_producer (λ _, EmptyString) (λ _, EmptyString)
             (λ _, EmptyString) EmptyString two_records events validations H).
Defined.

End RoleFacts.

(** ** The simulated session *)
Module SimulationFacts.
Import Simulation.

Section WithClock.
Variable ts : nat → string.
Variable needed_by : string.

(** The simulation clears the active item when an item is completed and
    when the human decision has come back. *)
Lemma simulation_active_todo :
  (λ s, (phase s, active_todo s)) <$> snapshots (build_simulation ts needed_by)
  = [("bootstrap", None); ("planning", None);
     ("dispatch", Some "todo-001"); ("verifying", Some "todo-001");
     ("dispatch", None);
     ("dispatch", Some "todo-002"); ("escalating", Some "todo-002");
     ("planning", None)].
Proof. vm_compute. reflexivity. Qed.

(** Every text of the simulation has the sections asked of it. *)
Lemma simulation_validations_pass :
  status <$> validations (build_simulation ts needed_by)
  = replicate 8 "pass".
Proof. vm_compute. reflexivity. Qed.

End WithClock.

End SimulationFacts.

(** * Further properties *)

(** ** What [extract_events] records *)
Module ExtractFacts.
Import PyStr Py Ingest.

(** What [classify_event] has found in a text when it answers [r]. *)
Definition classified (text : string) (r : ClassifierResult) : Prop :=
  (r = ("coder_payload", ("orchestrator", "coder"))
   ∧ contains "OBJECTIVE:" text = true ∧ contains "REQUIREMENTS:" text = true
   ∧ contains "CONSTRAINTS:" text = true)
  ∨ (r = ("tester_payload", ("orchestrator", "tester"))
     ∧ contains "SCOPE:" text = true ∧ contains "PASS CRITERIA:" text = true
     ∧ contains "ARTIFACT REQUESTS:" text = true)
  ∨ (r = ("stuck_payload", ("orchestrator", "stuck"))
     ∧ startswith "ISSUE:" text = true
     ∧ contains "DECISION OPTIONS:" text = true)
  ∨ (r = ("coder_response", ("coder", "orchestrator"))
     ∧ contains "STATUS:" text = true ∧ contains "DIFF:" text = true
     ∧ contains "TESTS:" text = true)
  ∨ (r = ("tester_response", ("tester", "orchestrator"))
     ∧ contains "STATUS:" text = true ∧ contains "VIEWPORTS:" text = true
     ∧ contains "RECOMMENDATION:" text = true)
  ∨ (r = ("stuck_response", ("stuck", "orchestrator"))
     ∧ startswith "HUMAN DECISION:" text = true
     ∧ contains "ACTION REQUIRED:" text = true).

Ltac pick_disjunct :=
  first [ by split_and! | by (left; split_and!) | (right; pick_disjunct) ].

Lemma classify_event_classified (text : string) (r : ClassifierResult) :
  classify_event text = Some r → classified text r.
Proof.
  unfold classify_event, CLASSIFIERS, first_result,
    classifier_orchestrator_payload, classifier_agent_response.
  repeat match goal with
         | |- context [contains ?m text] =>
             destruct (contains m text) eqn:?; simpl
         | |- context [startswith ?m text] =>
             destruct (startswith m text) eqn:?; simpl
         end;
    try discriminate; intros [= <-]; unfold classified; pick_disjunct.
Qed.

(** The required sections of a kind: [VALIDATION_RULES.get(kind, [])]. *)
Definition rules (kind : string) : list string :=
  default [] (VALIDATION_RULES !! kind).

(** The name [extract_events] gives the validation of a text. *)
Definition validation_name (kind text : string) : string :=
  kind +:+ "_" +:+ default kind (TODO_ID_PATTERN_search text).

Lemma eq_str_false (v : json) (s : string) :
  eq_str v s = false → v ≠ JStr s.
Proof.
  intros H ->. simpl in H. by rewrite String.eqb_refl in H.
Qed.

(** The sender and the recipient [extract_events] keeps, given what
    [guess_actor] found and the default of the classifier. *)
Lemma chosen_sender (guess : json) (fallback : string) :
  fallback ≠ "unknown" → fallback ≠ "assistant" → fallback ≠ "system" →
  let chosen :=
    if negb (eq_str guess "unknown")
       && negb (eq_str guess "assistant" || eq_str guess "system")
    then guess else JStr fallback in
  (chosen = guess ∨ chosen = JStr fallback)
  ∧ chosen ≠ JStr "unknown" ∧ chosen ≠ JStr "assistant"
  ∧ chosen ≠ JStr "system"
  ∧ (guess = JStr "unknown" → chosen = JStr fallback).
Proof.
  intros D1 D2 D3. simpl.
  destruct (eq_str guess "unknown") eqn:E1; simpl.
  { split_and!; [by right|congruence..|done]. }
  destruct (eq_str guess "assistant") eqn:E2; simpl.
  { split_and!; [by right|congruence..|done]. }
  destruct (eq_str guess "system") eqn:E3; simpl.
  { split_and!; [by right|congruence..|done]. }
  apply eq_str_false in E1, E2, E3. split_and!; [by left|done..].
Qed.

Lemma chosen_recipient (guess : json) (fallback : string) :
  fallback ≠ "unknown" →
  let chosen :=
    if negb (eq_str guess "unknown") then guess else JStr fallback in
  (chosen = guess ∨ chosen = JStr fallback)
  ∧ chosen ≠ JStr "unknown"
  ∧ (guess = JStr "unknown" → chosen = JStr fallback).
Proof.
  intros D. simpl. destruct (eq_str guess "unknown") eqn:E; simpl.
  - split_and!; [by right|congruence|done].
  - apply eq_str_false in E. split_and!; [by left|done..].
Qed.

Section WithLibrary.
Variable py_str : json → string.
Variable parse_timestamp : gmap string json → string.

(** The event and the validation that one classified record adds. *)
Definition appended (st : Extraction) (raw : gmap string json)
    (text : string) (r : ClassifierResult) (e : EventRecord)
    (v : ValidationResult) : Prop :=
  sequence e = S (seq_counter st)
  ∧ timestamp e = parse_timestamp raw
  ∧ payload_type e = r.1
  ∧ content e = text
  ∧ role e = (if endswith "payload" r.1 then "delegation" else "completion")
  ∧ (sender e = (guess_actor py_str raw).1 ∨ sender e = JStr r.2.1)
  ∧ (recipient e = (guess_actor py_str raw).2 ∨ recipient e = JStr r.2.2)
  ∧ sender e ≠ JStr "unknown" ∧ sender e ≠ JStr "assistant"
  ∧ sender e ≠ JStr "system" ∧ recipient e ≠ JStr "unknown"
  ∧ ((guess_actor py_str raw).1 = JStr "unknown" → sender e = JStr r.2.1)
  ∧ ((guess_actor py_str raw).2 = JStr "unknown"
     → recipient e = JStr r.2.2)
  ∧ v = require_sections text (rules r.1) (validation_name r.1 text).

Lemma extract_one_cases (st : Extraction) (raw : gmap string json) :
  match flatten_text raw with
  | Raise e => extract_one py_str parse_timestamp st raw = Raise e
  | Ok text =>
      match (if String.eqb text EmptyString then None
             else classify_event text) with
      | None => extract_one py_str parse_timestamp st raw = Ok st
      | Some r =>
          ∃ e v,
            extract_one py_str parse_timestamp st raw
            = Ok {| results := results st ++ [e];
                    validations := validations st ++ [v];
                    seq_counter := S (seq_counter st) |}
            ∧ appended st raw text r e v
      end
  end.
Proof.
  unfold extract_one, appended.
  generalize (guess_actor py_str raw). intros [sg rg].
  destruct (flatten_text raw) as [text|]; simpl; [|done].
  destruct (String.eqb text EmptyString); [done|].
  destruct (classify_event text) as [[kind [s0 r0]]|] eqn:Hc; [|done].
  assert (Hrules : rules kind ≠ []).
  { destruct (classify_event_classified _ _ Hc)
      as [H|[H|[H|[H|[H|H]]]]]; destruct H as [[= -> _ _] _];
      vm_compute; discriminate. }
  fold (rules kind).
  destruct (rules kind) as [|sec secs] eqn:Hr; [done|].
  eexists _, _. split; [reflexivity|].
  simpl. fold (validation_name kind text).
  assert (Hdefault : s0 ≠ "unknown" ∧ s0 ≠ "assistant" ∧ s0 ≠ "system"
                     ∧ r0 ≠ "unknown").
  { destruct (classify_event_classified _ _ Hc)
      as [H|[H|[H|[H|[H|H]]]]]; destruct H as [[= _ -> ->] _];
      split_and!; discriminate. }
  destruct Hdefault as (D1 & D2 & D3 & D4).
  destruct (chosen_sender sg s0 D1 D2 D3) as (S1 & S2 & S3 & S4 & S5).
  destruct (chosen_recipient rg r0 D4) as (R1 & R2 & R3).
  split_and!; try reflexivity; try assumption. by rewrite Hr.
Qed.

(** An invariant of the loop state that every round keeps holds at the
    end of the loop. *)
Lemma extract_loop_invariant (P : Extraction → Prop) :
  (∀ st raw st',
     P st → extract_one py_str parse_timestamp st raw = Ok st' → P st') →
  ∀ raws st st',
    P st → foldM (extract_one py_str parse_timestamp) st raws = Ok st' →
    P st'.
Proof.
  intros Hstep raws. induction raws as [|raw raws IH]; intros st st' HP; simpl.
  - by intros [= <-].
  - destruct (extract_one py_str parse_timestamp st raw) as [st1|] eqn:E;
      simpl; [|discriminate].
    intros Hrun. apply (IH st1 st'); [|done]. by apply (Hstep st raw).
Qed.

(** One round, when it succeeds: the state is unchanged, or one event and
    one validation are added. *)
Lemma extract_one_ok (st st' : Extraction) (raw : gmap string json) :
  extract_one py_str parse_timestamp st raw = Ok st' →
  st' = st
  ∨ ∃ text r e v,
      flatten_text raw = Ok text ∧ text ≠ EmptyString
      ∧ classify_event text = Some r
      ∧ st' = {| results := results st ++ [e];
                 validations := validations st ++ [v];
                 seq_counter := S (seq_counter st) |}
      ∧ appended st raw text r e v.
Proof.
  intros Hone. pose proof (extract_one_cases st raw) as Hc.
  destruct (flatten_text raw) as [text|];
    [|rewrite Hc in Hone; discriminate].
  destruct (String.eqb text EmptyString) eqn:Et; simpl in Hc;
    [rewrite Hc in Hone; injection Hone as <-; by left|].
  destruct (classify_event text) as [r|] eqn:Hr; simpl in Hc;
    [|rewrite Hc in Hone; injection Hone as <-; by left].
  destruct Hc as (e & v & Heq & Happ). right.
  exists text, r, e, v. apply String.eqb_neq in Et.
  rewrite Heq in Hone. injection Hone as <-. by split_and!.
Qed.

Definition extraction_start : Extraction :=
  {| results := []; validations := []; seq_counter := 0 |}.

Lemma extract_events_run (raws : list (gmap string json))
    (events : list EventRecord) (vals : list ValidationResult) :
  extract_events py_str parse_timestamp raws = Ok (events, vals) →
  ∃ st, foldM (extract_one py_str parse_timestamp) extraction_start raws
        = Ok st
        ∧ results st = events ∧ Ingest.validations st = vals.
Proof.
  unfold extract_events, rmap, bind. fold extraction_start.
  destruct (foldM _ _ raws) as [st|]; [|discriminate].
  intros [= <- <-]. by exists st.
Qed.

End WithLibrary.
End ExtractFacts.

(** ** Trimming *)
Module StripFacts.
Import PyStr Py Ingest.

Lemma rstrip_idem (s : string) : rstrip (rstrip s) = rstrip s.
Proof.
  induction s as [|c s IH]; simpl; [done|].
  destruct (is_space c && String.eqb (rstrip s) EmptyString) eqn:E;
    simpl; [done|].
  by rewrite IH, E.
Qed.

Lemma lstrip_head (s : string) :
  lstrip s = EmptyString
  ∨ ∃ c t, lstrip s = String c t ∧ is_space c = false.
Proof.
  induction s as [|c s IH]; simpl; [by left|].
  destruct (is_space c) eqn:E; [done|]. right. by exists c, s.
Qed.

Lemma lstrip_rstrip (c : ascii) (t : string) :
  is_space c = false →
  lstrip (rstrip (String c t)) = rstrip (String c t).
Proof. intros E. simpl. rewrite E. simpl. by rewrite E. Qed.

(** [s.strip().strip() == s.strip()] *)
Lemma strip_idem (s : string) : strip (strip s) = strip s.
Proof.
  unfold strip.
  destruct (lstrip_head s) as [->|(c & t & -> & E)]; [done|].
  by rewrite lstrip_rstrip, rstrip_idem.
Qed.

Lemma flatten_text_trimmed (raw : gmap string json) (text : string) :
  flatten_text raw = Ok text → strip text = text.
Proof.
  unfold flatten_text, bind, rmap, bind.
  destruct (content_candidates raw) as [[cands|]|]; [| |discriminate].
  - destruct (Py.join nl (concat (extract_candidate <$> cands))) as [joined|];
      [|discriminate].
    intros [= <-]. apply strip_idem.
  - by intros [= <-].
Qed.

(** A record that holds nothing but a text. *)
Lemma flatten_text_bare (text : string) :
  flatten_text {["content" := JStr text]} = Ok (strip text).
Proof.
  unfold flatten_text, content_candidates.
  rewrite lookup_singleton_eq. simpl.
  unfold rmap, Py.join, rmap, bind. simpl.
  unfold PyStr.join. simpl. done.
Qed.

End StripFacts.

(** ** The normalized events *)
Module NormalizedFacts.
Import PyStr Py Ingest ExtractFacts StripFacts.

(** Whether the loop of [extract_events] keeps a record: its text is not
    empty and is classified. *)
Definition kept_record (raw : gmap string json) : bool :=
  match flatten_text raw with
  | Ok text =>
      negb (String.eqb text EmptyString)
      && bool_decide (is_Some (classify_event text))
  | Raise _ => false
  end.

Lemma startswith_contains (p text : string) :
  startswith p text = true → contains p text = true.
Proof.
  unfold startswith. intros H. destruct text; simpl in *; by rewrite H.
Qed.

Section WithLibrary.
Variable py_str : json → string.
Variable parse_timestamp : gmap string json → string.

(** The record [raw] became the event [e] with the validation [v]. *)
Definition made (raw : gmap string json) (e : EventRecord)
    (v : ValidationResult) : Prop :=
  ∃ st text r,
    flatten_text raw = Ok text ∧ text ≠ EmptyString
    ∧ classify_event text = Some r
    ∧ appended py_str parse_timestamp st raw text r e v.

(** One round of the loop: the exception of [flatten_text] is passed
    on, or the record is dropped, or it becomes an event. *)
Lemma extract_one_trichotomy (st : Extraction) (raw : gmap string json) :
  (∃ x, flatten_text raw = Raise x
        ∧ extract_one py_str parse_timestamp st raw = Raise x)
  ∨ (kept_record raw = false ∧ (∃ text, flatten_text raw = Ok text)
     ∧ extract_one py_str parse_timestamp st raw = Ok st)
  ∨ (kept_record raw = true
     ∧ ∃ text r e v,
         flatten_text raw = Ok text ∧ text ≠ EmptyString
         ∧ classify_event text = Some r
         ∧ extract_one py_str parse_timestamp st raw
           = Ok {| results := results st ++ [e];
                   validations := Ingest.validations st ++ [v];
                   seq_counter := S (seq_counter st) |}
         ∧ appended py_str parse_timestamp st raw text r e v).
Proof.
  pose proof (extract_one_cases py_str parse_timestamp st raw) as Hc.
  unfold kept_record.
  destruct (flatten_text raw) as [text|x]; [|left; by exists x].
  right. destruct (String.eqb text EmptyString) eqn:Et; simpl in Hc |- *.
  { left. split; [done|]. split; [by exists text|done]. }
  destruct (classify_event text) as [r|] eqn:Hr; simpl in Hc.
  - right. split; [by apply bool_decide_eq_true_2|].
    destruct Hc as (e & v & Heq & Happ). exists text, r, e, v.
    apply String.eqb_neq in Et. by split_and!.
  - left. split; [|split; [by exists text|done]].
    apply bool_decide_eq_false_2. by intros [? ?].
Qed.

Lemma run_provenance (raws : list (gmap string json)) :
  ∀ st st',
    foldM (extract_one py_str parse_timestamp) st raws = Ok st' →
    ∃ es vs,
      results st' = results st ++ es
      ∧ Ingest.validations st' = Ingest.validations st ++ vs
      ∧ Forall3 made (filter (λ raw, kept_record raw = true) raws) es vs
      ∧ sequence <$> es = seq (S (seq_counter st)) (length es).
Proof.
  induction raws as [|raw raws IH]; intros st st'; simpl.
  - intros [= <-]. exists [], []. rewrite !app_nil_r.
    split_and!; try done; constructor.
  - rewrite filter_cons.
    destruct (extract_one_trichotomy st raw)
      as [(x & _ & ->)|[(Hk & _ & ->)|(Hk & text & r & e & v & Hf & Et & Hr
                                        & -> & Happ)]]; simpl.
    + discriminate.
    + rewrite decide_False by (by rewrite Hk). apply IH.
    + rewrite decide_True by done.
      intros Hrun.
      destruct (IH _ _ Hrun) as (es & vs & H1 & H2 & H4 & H6).
      simpl in H1, H2, H6.
      exists (e :: es), (v :: vs). rewrite H1, H2, <- !app_assoc.
      split_and!; try done.
      * constructor; [|done]. exists st, text, r. by split_and!.
      * rewrite fmap_cons. simpl. f_equal; [by destruct Happ as [-> _]|done].
Qed.

Lemma extract_events_made (raws : list (gmap string json))
    (events : list EventRecord) (vals : list ValidationResult) :
  extract_events py_str parse_timestamp raws = Ok (events, vals) →
  Forall3 made (filter (λ raw, kept_record raw = true) raws) events vals
  ∧ sequence <$> events = seq 1 (length events).
Proof.
  intros H.
  destruct (extract_events_run py_str parse_timestamp raws events vals H)
    as (st & Hrun & <- & <-).
  destruct (run_provenance raws _ _ Hrun) as (es & vs & -> & -> & H4 & H6).
  done.
Qed.

Lemma made_events (P : gmap string json → EventRecord → Prop)
    (raws : list (gmap string json)) (events : list EventRecord)
    (vals : list ValidationResult) :
  (∀ raw e v, made raw e v → P raw e) →
  Forall3 made raws events vals → Forall2 P raws events.
Proof. intros HP. induction 1; constructor; eauto. Qed.

Lemma made_validations (P : EventRecord → ValidationResult → Prop)
    (raws : list (gmap string json)) (events : list EventRecord)
    (vals : list ValidationResult) :
  (∀ raw e v, made raw e v → P e v) →
  Forall3 made raws events vals → Forall2 P events vals.
Proof. intros HP. induction 1; constructor; eauto. Qed.

Lemma made_each (P : EventRecord → Prop)
    (raws : list (gmap string json)) (events : list EventRecord)
    (vals : list ValidationResult) :
  (∀ raw e v, made raw e v → P e) →
  Forall3 made raws events vals → Forall P events.
Proof. intros HP. induction 1; constructor; eauto. Qed.

(** X1. The events [extract_events] returns are numbered 1, 2, 3, ... in
    the order of the list; there are as many as there are records whose
    text is not empty and is classified, so never more than records. *)
Theorem extract_events_numbering (raws : list (gmap string json))
    (events : list EventRecord) (vals : list ValidationResult) :
  extract_events py_str parse_timestamp raws = Ok (events, vals) →
  sequence <$> events = seq 1 (length events)
  ∧ length events = length (filter (λ raw, kept_record raw = true) raws)
  ∧ length events ≤ length raws.
Proof.
  intros H. destruct (extract_events_made raws events vals H) as [Hm Hseq].
  apply (made_events (λ _ _, True)) in Hm; [|done].
  apply Forall2_length in Hm.
  split_and!; [done..|]. rewrite <- Hm. apply length_filter.
Qed.

(** X2. The events are made, in order, from the records that have a text
    and are classified, the others being dropped: an event holds the
    flattened text of its record, the kind [classify_event] gives that
    text, and the time stamp read from the record. *)
Theorem extract_events_provenance (raws : list (gmap string json))
    (events : list EventRecord) (vals : list ValidationResult) :
  extract_events py_str parse_timestamp raws = Ok (events, vals) →
  Forall2
    (λ raw e,
       flatten_text raw = Ok (content e)
       ∧ timestamp e = parse_timestamp raw
       ∧ ∃ direction,
           classify_event (content e) = Some (payload_type e, direction))
    (filter (λ raw, kept_record raw = true) raws) events.
Proof.
  intros H. destruct (extract_events_made raws events vals H) as [Hm _].
  eapply made_events; [|exact Hm]. simpl.
  intros raw e v (st & text & [kind d] & Hf & _ & Hc & Happ).
  destruct Happ as (_ & Hts & Hk & Hcontent & _). simpl in Hk.
  rewrite Hk, Hcontent. split_and!; [done..|]. by exists d.
Qed.

(** X3. Every event [extract_events] returns has a text that is not
    empty and has no white space at either end, and a kind among the six
    of the classifier. *)
Theorem extract_events_contents (raws : list (gmap string json))
    (events : list EventRecord) (vals : list ValidationResult) :
  extract_events py_str parse_timestamp raws = Ok (events, vals) →
  Forall
    (λ e,
       content e ≠ EmptyString ∧ strip (content e) = content e
       ∧ payload_type e
         ∈ ["coder_payload"; "tester_payload"; "stuck_payload";
            "coder_response"; "tester_response"; "stuck_response"])
    events.
Proof.
  intros H. destruct (extract_events_made raws events vals H) as [Hm _].
  eapply made_each; [|exact Hm]. simpl.
  intros raw e v (st & text & [kind d] & Hf & Hne & Hc & Happ).
  destruct Happ as (_ & _ & Hk & Hcontent & _). simpl in Hk.
  rewrite Hk, Hcontent. split_and!; [done|by eapply flatten_text_trimmed|].
  destruct (classify_event_classified _ _ Hc)
    as [Hd|[Hd|[Hd|[Hd|[Hd|Hd]]]]]; destruct Hd as [[= -> _] _];
    set_solver.
Qed.

(** X4. Every event has exactly one validation, at its own position in
    the list of validations: the check of the event's text against the
    sections required of its kind (there are some for each kind), named
    by the kind and the identifier found in the text, or by the kind
    twice when the text has none. *)
Theorem extract_events_validated (raws : list (gmap string json))
    (events : list EventRecord) (vals : list ValidationResult) :
  extract_events py_str parse_timestamp raws = Ok (events, vals) →
  length vals = length events
  ∧ Forall2
      (λ e v,
         v = require_sections (content e) (rules (payload_type e))
               (payload_type e +:+ "_"
                +:+ default (payload_type e)
                      (TODO_ID_PATTERN_search (content e)))
         ∧ rules (payload_type e) ≠ [])
      events vals.
Proof.
  intros H. destruct (extract_events_made raws events vals H) as [Hm _].
  assert (Hall : Forall2
      (λ e v,
         v = require_sections (content e) (rules (payload_type e))
               (payload_type e +:+ "_"
                +:+ default (payload_type e)
                      (TODO_ID_PATTERN_search (content e)))
         ∧ rules (payload_type e) ≠ [])
      events vals).
  { eapply made_validations; [|exact Hm]. simpl.
    intros raw e v (st & text & [kind d] & Hf & Hne & Hc & Happ).
    destruct Happ
      as (_ & _ & Hk & Hcontent & _ & _ & _ & _ & _ & _ & _ & _ & _ & ->).
    simpl in Hk. rewrite Hk, Hcontent. split; [done|].
    destruct (classify_event_classified _ _ Hc)
      as [Hd|[Hd|[Hd|[Hd|[Hd|Hd]]]]]; destruct Hd as [[= -> _] _];
      vm_compute; discriminate. }
  split; [|done]. symmetry. by eapply Forall2_length.
Qed.

(** The sections whose absence a validation of a classified text can
    still report: the required ones that the classifier did not already
    find. *)
Definition may_miss (kind : string) : list string :=
  if String.eqb kind "coder_payload"
  then ["TODO ID:"; "OUTPUT FORMAT:"; "POST-CONDITIONS:"; "```diff"]
  else if String.eqb kind "tester_payload"
  then ["TODO ID:"; "VIEWPORTS:"; "FAILURE HANDOFF:"]
  else if String.eqb kind "stuck_payload"
  then ["CONTEXT:"; "NEEDED BY:"]
  else if String.eqb kind "coder_response"
  then ["TODO ID:"; "SUMMARY:"; "FOLLOW-UP:"]
  else if String.eqb kind "tester_response"
  then ["TODO ID:"; "STEPS:"; "ISSUES:"]
  else if String.eqb kind "stuck_response"
  then ["FOLLOW-UP:"]
  else [].

Ltac solve_sublist :=
  repeat first [ apply sublist_nil_l | apply sublist_skip
               | apply sublist_cons ].

Lemma classified_may_miss (text : string) (r : ClassifierResult) :
  classified text r →
  filter (λ section, contains section text = false) (rules r.1)
    `sublist_of` may_miss r.1.
Proof.
  intros [H|[H|[H|[H|[H|H]]]]];
    [destruct H as (-> & H1 & H2 & H3)
    |destruct H as (-> & H1 & H2 & H3)
    |destruct H as (-> & H1%startswith_contains & H2)
    |destruct H as (-> & H1 & H2 & H3)
    |destruct H as (-> & H1 & H2 & H3)
    |destruct H as (-> & H1%startswith_contains & H2)];
    simpl;
    match goal with
    | |- context [rules ?k] =>
        let l := eval vm_compute in (rules k) in
        change (rules k) with l
    end;
    rewrite !filter_cons, filter_nil;
    repeat match goal with
           | H : contains ?m text = true |- _ => rewrite H; clear H
           end;
    repeat match goal with
           | |- context [contains ?m text] => destruct (contains m text)
           end;
    simpl; solve_sublist.
Qed.

(** X5. A validation made by [extract_events] never reports as missing a
    marker that the classifier needed to give the event its kind: for a
    coder payload only [TODO ID:], [OUTPUT FORMAT:], [POST-CONDITIONS:]
    and the diff fence can be missing, for a stuck response only
    [FOLLOW-UP:], and so on for the other kinds. *)
Theorem validations_spare_classifier_markers
    (raws : list (gmap string json)) (events : list EventRecord)
    (vals : list ValidationResult) :
  extract_events py_str parse_timestamp raws = Ok (events, vals) →
  Forall2
    (λ e v, missing_sections v `sublist_of` may_miss (payload_type e))
    events vals.
Proof.
  intros H. destruct (extract_events_made raws events vals H) as [Hm _].
  eapply made_validations; [|exact Hm]. simpl.
  intros raw e v (st & text & r & Hf & Hne & Hc & Happ).
  destruct Happ
    as (_ & _ & Hk & Hcontent & _ & _ & _ & _ & _ & _ & _ & _ & _ & ->).
  rewrite Hk. simpl.
  by apply classified_may_miss, classify_event_classified.
Qed.

(** X6. An event never has the sender unknown, assistant or system, nor
    the recipient unknown: where the metadata give one of these, or
    nothing, the direction that goes with the kind is used. *)
Theorem extract_events_routing (raws : list (gmap string json))
    (events : list EventRecord) (vals : list ValidationResult) :
  extract_events py_str parse_timestamp raws = Ok (events, vals) →
  Forall
    (λ e,
       sender e ≠ JStr "unknown" ∧ sender e ≠ JStr "assistant"
       ∧ sender e ≠ JStr "system" ∧ recipient e ≠ JStr "unknown")
    events
  ∧ Forall2
      (λ raw e,
         ∃ s r,
           classify_event (content e) = Some (payload_type e, (s, r))
           ∧ (sender e = (guess_actor py_str raw).1 ∨ sender e = JStr s)
           ∧ (recipient e = (guess_actor py_str raw).2
              ∨ recipient e = JStr r)
           ∧ ((guess_actor py_str raw).1 = JStr "unknown"
              → sender e = JStr s)
           ∧ ((guess_actor py_str raw).2 = JStr "unknown"
              → recipient e = JStr r))
      (filter (λ raw, kept_record raw = true) raws) events.
Proof.
  intros H. destruct (extract_events_made raws events vals H) as [Hm _].
  split.
  - eapply made_each; [|exact Hm]. simpl.
    intros raw e v (st & text & r & Hf & Hne & Hc & Happ).
    by destruct Happ
      as (_ & _ & _ & _ & _ & _ & _ & S1 & S2 & S3 & S4 & _).
  - eapply made_events; [|exact Hm]. simpl.
    intros raw e v (st & text & [kind [s r]] & Hf & Hne & Hc & Happ).
    destruct Happ
      as (_ & _ & Hk & Hcontent & _ & G1 & G2 & _ & _ & _ & _ & U1 & U2 & _).
    simpl in *. exists s, r. rewrite Hk, Hcontent. by split_and!.
Qed.



(** X8. Normalizing is idempotent on the text: a record that holds
    nothing but the text of an event is kept, and gives an event with the
    same text, kind and role, numbered 1, and the same validation. *)
Theorem extract_events_again (raws : list (gmap string json))
    (events : list EventRecord) (vals : list ValidationResult) :
  extract_events py_str parse_timestamp raws = Ok (events, vals) →
  Forall2
    (λ e v,
       ∃ e',
         extract_events py_str parse_timestamp
           [{["content" := JStr (content e)]}]
         = Ok ([e'], [v])
         ∧ content e' = content e ∧ payload_type e' = payload_type e
         ∧ role e' = role e ∧ sequence e' = 1)
    events vals.
Proof.
  intros H. destruct (extract_events_made raws events vals H) as [Hm _].
  eapply made_validations; [|exact Hm]. simpl.
  intros raw e v (st & text & r & Hf & Hne & Hc & Happ).
  destruct Happ
    as (_ & _ & Hk & Hcontent & Hrole & _ & _ & _ & _ & _ & _ & _ & _ & ->).
  rewrite Hcontent, Hk, Hrole.
  pose proof (extract_one_cases py_str parse_timestamp extraction_start
                {["content" := JStr text]}) as Hone.
  rewrite flatten_text_bare, (flatten_text_trimmed raw text Hf) in Hone.
  rewrite (proj2 (String.eqb_neq _ _) Hne), Hc in Hone.
  destruct Hone as (e' & v' & Hone & Happ').
  destruct Happ'
    as (Hs & _ & Hk' & Hc' & Hr' & _ & _ & _ & _ & _ & _ & _ & _ & ->).
  exists e'. unfold extract_events, rmap, bind. fold extraction_start.
  simpl. rewrite Hone. simpl. by split_and!.
Qed.

End WithLibrary.

(** Three records: a coder payload as bare text; a record without any
    text; a coder response as a text part inside [message], sent by a
    participant called assistant to a target with the role
    orchestrator. *)
Definition sample_records : list (gmap string json) := [
  {["content" :=
      JStr ("  TODO ID: todo-7" +:+ nl
            +:+ "OBJECTIVE: a REQUIREMENTS: b CONSTRAINTS: c" +:+ nl)]};
  {["note" := JStr "nothing to read"]};
  <["participant" := JStr "assistant"]>
    (<["target" := JObj {["role" := JStr "orchestrator"]}]>
       {["message" :=
           JObj {["content" :=
                    JList [JObj (<["type" := JStr "text"]>
                                   {["text" :=
                                       JStr "STATUS: ok DIFF: d TESTS: t"]})]
           ]}]})
].

Definition no_str : json → string := λ _, EmptyString.
Definition no_clock : gmap string json → string := λ _, EmptyString.

Lemma extract_events_numbering_witness :
  ∃ events vals,
    extract_events no_str no_clock sample_records = Ok (events, vals)
    ∧ sequence <$> events = seq 1 (length events)
    ∧ length events ≤ 3.
Proof.
  destruct (extract_events no_str no_clock sample_records)
    as [[events vals]|] eqn:H; [|vm_compute in H; discriminate].
  exists events, vals. split; [done|].
  destruct (extract_events_numbering no_str no_clock sample_records
              events vals H) as (H1 & _ & H3).
  split; [exact H1 | exact H3].
Defined.

Lemma extract_events_provenance_witness :
  ∃ events vals,
    extract_events no_str no_clock sample_records = Ok (events, vals)
    ∧ Forall2
        (λ raw e,
           flatten_text raw = Ok (content e)
           ∧ timestamp e = no_clock raw
           ∧ ∃ direction,
               classify_event (content e)
               = Some (payload_type e, direction))
        (filter (λ raw, kept_record raw = true) sample_records) events.
Proof.
  destruct (extract_events no_str no_clock sample_records)
    as [[events vals]|] eqn:H; [|vm_compute in H; discriminate].
  exists events, vals. split; [done|].
  exact (extract_events_provenance no_str no_clock sample_records
           events vals H).
Defined.

Lemma extract_events_contents_witness :
  ∃ events vals,
    extract_events no_str no_clock sample_records = Ok (events, vals)
    ∧ Forall (λ e, content e ≠ EmptyString ∧ strip (content e) = content e)
        events.
Proof.
  destruct (extract_events no_str no_clock sample_records)
    as [[events vals]|] eqn:H; [|vm_compute in H; discriminate].
  exists events, vals. split; [done|].
  eapply Forall_impl;
    [exact (extract_events_contents no_str no_clock sample_records
              events vals H)|].
  simpl. intros e (H1 & H2 & _). by split.
Defined.

Lemma extract_events_validated_witness :
  ∃ events vals,
    extract_events no_str no_clock sample_records = Ok (events, vals)
    ∧ length vals = length events
    ∧ Ingest.name <$> vals = ["coder_payload_todo-7";
                              "coder_response_coder_response"].
Proof.
  destruct (extract_events no_str no_clock sample_records)
    as [[events vals]|] eqn:H; [|vm_compute in H; discriminate].
  exists events, vals. split; [done|]. split.
  - exact (proj1 (extract_events_validated no_str no_clock sample_records
                    events vals H)).
  - vm_compute in H. by injection H as <- <-.
Defined.

Lemma validations_spare_classifier_markers_witness :
  ∃ events vals,
    extract_events no_str no_clock sample_records = Ok (events, vals)
    ∧ Forall2
        (λ e v, missing_sections v `sublist_of` may_miss (payload_type e))
        events vals.
Proof.
  destruct (extract_events no_str no_clock sample_records)
    as [[events vals]|] eqn:H; [|vm_compute in H; discriminate].
  exists events, vals. split; [done|].
  exact (validations_spare_classifier_markers no_str no_clock
           sample_records events vals H).
Defined.

Lemma extract_events_routing_witness :
  ∃ events vals,
    extract_events no_str no_clock sample_records = Ok (events, vals)
    ∧ Forall
        (λ e,
           sender e ≠ JStr "unknown" ∧ sender e ≠ JStr "assistant"
           ∧ sender e ≠ JStr "system" ∧ recipient e ≠ JStr "unknown")
        events
    ∧ (λ e, (sender e, recipient e)) <$> events
      = [(JStr "orchestrator", JStr "coder");
         (JStr "coder", JStr "orchestrator")].
Proof.
  destruct (extract_events no_str no_clock sample_records)
    as [[events vals]|] eqn:H; [|vm_compute in H; discriminate].
  exists events, vals. split; [done|]. split.
  - exact (proj1 (extract_events_routing no_str no_clock sample_records
                    events vals H)).
  - vm_compute in H. by injection H as <- <-.
Defined.

Lemma extract_events_again_witness :
  ∃ events vals,
    extract_events no_str no_clock sample_records = Ok (events, vals)
    ∧ Forall2
        (λ e v,
           ∃ e',
             extract_events no_str no_clock
               [{["content" := JStr (content e)]}]
             = Ok ([e'], [v])
             ∧ content e' = content e ∧ payload_type e' = payload_type e
             ∧ role e' = role e ∧ sequence e' = 1)
        events vals.
Proof.
  destruct (extract_events no_str no_clock sample_records)
    as [[events vals]|] eqn:H; [|vm_compute in H; discriminate].
  exists events, vals. split; [done|].
  exact (extract_events_again no_str no_clock sample_records events vals H).
Defined.

End NormalizedFacts.

(** ** The shapes [flatten_text] reads *)
Module ShapeFacts.
Import PyStr Py Ingest StripFacts.

(** The text of a record that holds only the content [c]. *)
Definition text_of (c : json) : result string :=
  flatten_text {["content" := c]}.

Lemma text_of_content (raw : gmap string json) (c : json) :
  raw !! "content" = Some c → flatten_text raw = text_of c.
Proof.
  intros H. unfold text_of, flatten_text, content_candidates.
  by rewrite H, lookup_singleton_eq.
Qed.












End ShapeFacts.

(** ** When [flatten_text] fails *)
Module FailureFacts.
Import PyStr Py Ingest StripFacts ShapeFacts.

Definition is_str (v : json) : bool :=
  match v with
  | JStr _ => true
  | _ => false
  end.

Lemma strings_of_raises (l : list json) (x : exn) :
  strings_of l = Raise x → x = TypeError.
Proof.
  induction l as [|v l IH]; simpl; [discriminate|].
  destruct v; try (by intros [= <-]).
  unfold rmap, bind. destruct (strings_of l); [discriminate|].
  intros [= <-]. by apply IH.
Qed.

Lemma strings_of_not_str (l : list json) (v : json) :
  v ∈ l → is_str v = false → strings_of l = Raise TypeError.
Proof.
  induction l as [|w l IH]; intros Hin Hv; [by inversion Hin|].
  apply elem_of_cons in Hin as [<-|Hin].
  - by destruct v.
  - simpl. destruct w; try done.
    unfold rmap, bind. by rewrite (IH Hin Hv).
Qed.

Lemma elem_of_concat_parts (v : json) (parts : list (list json)) :
  v ∈ concat parts ↔ ∃ part, part ∈ parts ∧ v ∈ part.
Proof.
  induction parts as [|p parts IH]; simpl.
  - split; [by inversion 1|]. intros (part & H & _). by inversion H.
  - rewrite elem_of_app, IH. split.
    + intros [H|(part & H1 & H2)];
        [exists p; split; [by left|done]|exists part; split; [by right|done]].
    + intros (part & [->|H1]%elem_of_cons & H2); [by left|right; eauto].
Qed.

Lemma strings_of_raises_elem (l : list json) (x : exn) :
  strings_of l = Raise x → ∃ v, v ∈ l ∧ is_str v = false.
Proof.
  revert x. induction l as [|w l IH]; intros x; simpl; [discriminate|].
  destruct w; try (intros _; eexists; split; [by left|done]).
  unfold rmap, bind. destruct (strings_of l) as [|y]; [discriminate|].
  intros _. destruct (IH y eq_refl) as (v & Hv & Hs).
  exists v. split; [by right|done].
Qed.

(** What a candidate appends that is not a string can only be the [text]
    of a text part. *)
Lemma extract_candidate_not_str (cand v : json) (cands : list json) :
  v ∈ extract_candidate cand → is_str v = false → cand ∈ cands →
  ∃ d t,
    JObj d ∈ cands ∧ d !! "type" = Some (JStr "text")
    ∧ d !! "text" = Some t ∧ is_str t = false.
Proof.
  intros Hv Hs Hcand. destruct cand as [| | |s|l|d]; simpl in Hv;
    try (by inversion Hv).
  - apply list_elem_of_singleton in Hv as ->. done.
  - destruct (eq_str (get d "type") "text"
              && bool_decide (is_Some (d !! "text"))) eqn:Et.
    + apply list_elem_of_singleton in Hv as ->.
      apply andb_true_iff in Et as [Et1 Et2].
      apply bool_decide_eq_true in Et2 as [t Ht].
      exists d, t. unfold get in *. rewrite Ht in Hs. simpl in Hs.
      split_and!; try done.
      destruct (d !! "type") as [[]|]; try done.
      simpl in Et1. apply String.eqb_eq in Et1. by subst.
    + destruct (d !! "value") as [[]|]; try (by inversion Hv).
      apply list_elem_of_singleton in Hv as ->. done.
Qed.

Lemma nested_content_raises (raw : gmap string json) (key : string)
    (x : exn) :
  nested_content raw key = Raise x → x = TypeError.
Proof.
  unfold nested_content. destruct (raw !! key) as [inner|]; [|discriminate].
  destruct inner as [| | |s|l|m]; simpl; try (by intros [= <-]).
  - destruct (contains "content" s); simpl; [by intros [= <-]|discriminate].
  - destruct (existsb _ l); simpl; [by intros [= <-]|discriminate].
  - destruct (m !! "content") eqn:E; simpl; discriminate.
Qed.

(** X11. The only exception of [flatten_text], and so of
    [extract_events], is a type error, and a record with a key [content]
    fails exactly when one of its parts is a text part whose [text] is
    not a string.  Without that key, a [message] that is null, a boolean
    or a number fails, and so does a [message] that is a string
    containing the word content. *)
Theorem flatten_text_failures (raw : gmap string json) :
  (∀ x, flatten_text raw = Raise x → x = TypeError)
  ∧ (∀ c,
       raw !! "content" = Some c →
       flatten_text raw = Raise TypeError
       ↔ ∃ d t,
           JObj d ∈ ensure_list c ∧ d !! "type" = Some (JStr "text")
           ∧ d !! "text" = Some t ∧ is_str t = false)
  ∧ (raw !! "content" = None →
     ∀ message,
       raw !! "message" = Some message →
       message = JNull ∨ (∃ b, message = JBool b) ∨ (∃ q, message = JNum q)
       ∨ (∃ s, message = JStr s ∧ contains "content" s = true) →
       flatten_text raw = Raise TypeError).
Proof.
  split_and!.
  - intros x. unfold flatten_text, content_candidates, bind.
    destruct (raw !! "content") as [c|].
    + unfold rmap, bind, Py.join, rmap, bind.
      destruct (strings_of _) eqn:E; [discriminate|].
      intros [= <-]. by eapply strings_of_raises.
    + destruct (nested_content raw "message") as [[c|]|] eqn:Em.
      * unfold rmap, bind, Py.join, rmap, bind.
        destruct (strings_of _) eqn:E; [discriminate|].
        intros [= <-]. by eapply strings_of_raises.
      * destruct (nested_content raw "payload") as [[c|]|] eqn:Ep; simpl.
        -- unfold rmap, bind, Py.join, rmap, bind.
           destruct (strings_of _) eqn:E; [discriminate|].
           intros [= <-]. by eapply strings_of_raises.
        -- discriminate.
        -- intros [= <-]. by eapply nested_content_raises.
      * intros [= <-]. by eapply nested_content_raises.
  - intros c Hc. rewrite (text_of_content raw c Hc).
    unfold text_of, flatten_text, content_candidates.
    rewrite lookup_singleton_eq. simpl.
    unfold rmap, bind, Py.join, rmap, bind.
    split.
    + destruct (strings_of _) as [ss|x] eqn:E; [discriminate|]. intros _.
      destruct (strings_of_raises_elem _ _ E) as (v & Hv & Hs).
      apply elem_of_concat_parts in Hv as (part & Hpart & Hv).
      apply list_elem_of_fmap in Hpart as (cand & -> & Hcand).
      by apply (extract_candidate_not_str cand v).
    + intros (d & t & Hin & H1 & H2 & H3).
      rewrite (strings_of_not_str _ t); [done| |done].
      apply elem_of_concat_parts.
      exists (extract_candidate (JObj d)). split.
      * apply list_elem_of_fmap. by exists (JObj d).
      * simpl. unfold get. rewrite H1, H2. simpl. by left.
  - intros Hc message Hm Hcases.
    unfold flatten_text, content_candidates, nested_content.
    rewrite Hc, Hm.
    destruct Hcases as [->|[[b ->]|[[q ->]|(s & -> & Hs)]]]; try done.
    simpl. by rewrite Hs.
Qed.

End FailureFacts.

(** ** What [guess_actor] finds *)
Module ActorFacts.
Import PyStr Py Ingest.

Section WithLibrary.
Variable py_str : json → string.

(** No value, or a value that counts as false. *)
Definition silent (raw : gmap string json) (key : string) : Prop :=
  truthy (get raw key) = false.

Lemma py_or_silent (a b : json) : truthy a = false → py_or a b = b.
Proof. intros H. unfold py_or. by rewrite H. Qed.

Lemma py_or_loud (a b : json) : truthy a = true → py_or a b = a.
Proof. intros H. unfold py_or. by rewrite H. Qed.

(** X12. [guess_actor] answers unknown for the sender when
    [participant], [actor] and [source] are all absent or false (null,
    zero, empty), and for the recipient when [target] and [recipient]
    are.  A participant that is a non-empty string is the sender; one
    that is a dictionary gives its [name], or else its [role]; and a
    non-empty dictionary with neither makes the sender unknown whatever
    [actor] and [source] say. *)
Theorem guess_actor_sender (raw : gmap string json) :
  (silent raw "participant" → silent raw "actor" → silent raw "source" →
   (guess_actor py_str raw).1 = JStr "unknown")
  ∧ (silent raw "target" → silent raw "recipient" →
     (guess_actor py_str raw).2 = JStr "unknown")
  ∧ (∀ n, raw !! "participant" = Some (JStr n) → n ≠ EmptyString →
       (guess_actor py_str raw).1 = JStr n)
  ∧ (∀ d, raw !! "participant" = Some (JObj d) → d ≠ ∅ →
       (∀ n, d !! "name" = Some (JStr n) → n ≠ EmptyString →
          (guess_actor py_str raw).1 = JStr n)
       ∧ (∀ r, truthy (get d "name") = false →
            d !! "role" = Some (JStr r) → r ≠ EmptyString →
            (guess_actor py_str raw).1 = JStr r)
       ∧ (truthy (get d "name") = false → truthy (get d "role") = false →
          (guess_actor py_str raw).1 = JStr "unknown")).
Proof.
  unfold silent, guess_actor. cbv zeta. split_and!.
  - intros H1 H2 H3.
    by rewrite (py_or_silent (get raw "participant")),
      (py_or_silent (get raw "actor")), (py_or_silent (get raw "source")).
  - intros H1 H2.
    by rewrite (py_or_silent (get raw "target")),
      (py_or_silent (get raw "recipient")).
  - intros n Hp Hn.
    assert (Hg : get raw "participant" = JStr n)
      by (unfold get; by rewrite Hp).
    rewrite Hg, (py_or_loud (JStr n)); [done|].
    simpl. by apply negb_true_iff, String.eqb_neq.
  - intros d Hp Hd.
    assert (Hg : get raw "participant" = JObj d)
      by (unfold get; by rewrite Hp).
    rewrite Hg, (py_or_loud (JObj d))
      by (simpl; by apply negb_true_iff, bool_decide_eq_false_2).
    cbn [is_dict name_or_role fst]. split_and!.
    + intros n Hn Hne.
      assert (Hgn : get d "name" = JStr n) by (unfold get; by rewrite Hn).
      rewrite Hgn, (py_or_loud (JStr n)); [done|].
      simpl. by apply negb_true_iff, String.eqb_neq.
    + intros r Hname Hr Hne. rewrite (py_or_silent (get d "name")) by done.
      assert (Hgr : get d "role" = JStr r) by (unfold get; by rewrite Hr).
      rewrite Hgr, (py_or_loud (JStr r)); [done|].
      simpl. by apply negb_true_iff, String.eqb_neq.
    + intros Hname Hrole.
      by rewrite (py_or_silent (get d "name")),
        (py_or_silent (get d "role")).
Qed.

End WithLibrary.

Definition hidden_actor : gmap string json :=
  <["participant" := JObj {["id" := JNum 7]}]> {["actor" := JStr "coder"]}.

Lemma guess_actor_sender_witness :
  (guess_actor (λ _, EmptyString) hidden_actor).1 = JStr "unknown".
Proof.
  destruct (guess_actor_sender (λ _, EmptyString) hidden_actor)
    as (_ & _ & _ & Hdict).
  assert (Hne : ({["id" := JNum 7]} : gmap string json) ≠ ∅)
    by apply map_non_empty_singleton.
  destruct (Hdict {["id" := JNum 7]} eq_refl Hne) as (_ & _ & Hneither).
  by apply Hneither.
Defined.

End ActorFacts.

(** ** The state machine, event by event *)
Module MachineFacts.
Import PyStr Py Ingest TransitionFacts.

Definition known_kind (kind : string) : bool :=
  String.eqb kind "coder_payload" || String.eqb kind "coder_response"
  || String.eqb kind "tester_payload" || String.eqb kind "tester_response"
  || String.eqb kind "stuck_payload" || String.eqb kind "stuck_response".

(** An event drives a transition when it carries an identifier and has
    one of the six kinds. *)
Definition drives (e : EventRecord) : bool :=
  bool_decide (is_Some (TODO_ID_PATTERN_search (content e)))
  && known_kind (payload_type e).

(** The phase a driving event sets. *)
Definition phase_after (e : EventRecord) : string :=
  let kind := payload_type e in
  if String.eqb kind "coder_payload" then "dispatch"
  else if String.eqb kind "coder_response" then
    if String.eqb (status_token (content e)) "success" then "verifying"
    else "escalating"
  else if String.eqb kind "tester_payload" then "verifying"
  else if String.eqb kind "tester_response" then
    if String.eqb (status_token (content e)) "pass" then "dispatch"
    else "escalating"
  else if String.eqb kind "stuck_payload" then "escalating"
  else "planning".

(** The status a driving event stores for its item, if it stores one. *)
Definition status_after (e : EventRecord) : option string :=
  let kind := payload_type e in
  if String.eqb kind "coder_payload" then Some "in_progress"
  else if String.eqb kind "coder_response" then
    if String.eqb (status_token (content e)) "success" then Some "verifying"
    else Some "blocked"
  else if String.eqb kind "tester_payload" then None
  else if String.eqb kind "tester_response" then
    if String.eqb (status_token (content e)) "pass" then Some "complete"
    else Some "blocked"
  else if String.eqb kind "stuck_payload" then None
  else Some "pending".

Definition PHASES : list string :=
  ["bootstrap"; "planning"; "dispatch"; "verifying"; "escalating"].

Definition STATUSES : list string :=
  ["pending"; "in_progress"; "verifying"; "blocked"; "complete"].

Lemma phase_after_closed (e : EventRecord) : phase_after e ∈ PHASES.
Proof.
  unfold phase_after, PHASES.
  repeat match goal with
         | |- context [String.eqb ?a ?b] => destruct (String.eqb a b)
         end; set_solver.
Qed.

Lemma status_after_closed (e : EventRecord) (v : string) :
  status_after e = Some v → v ∈ STATUSES.
Proof.
  unfold status_after, STATUSES.
  repeat match goal with
         | |- context [String.eqb ?a ?b] => destruct (String.eqb a b)
         end; intros [= <-]; set_solver.
Qed.

(** What one round of the loop does to the local variables before it
    appends its snapshot. *)
Lemma handle_event_effect (fr : Frame) (e : EventRecord) :
  if drives e then
    ∃ t note fr1,
      TODO_ID_PATTERN_search (content e) = Some t
      ∧ handle_event fr e = append_snapshot note (timestamp e) fr1
      ∧ todo_status fr1 = todo_status fr
      ∧ snapshots fr1 = snapshots fr
      ∧ phase_var fr1 = phase_after e
      ∧ heap fr1 = match status_after e with
                   | Some v => setitem (todo_status fr) t v (heap fr)
                   | None => heap fr
                   end
      ∧ active_todo_var fr1
        = if String.eqb (payload_type e) "coder_payload" then Some t
          else active_todo_var fr
  else handle_event fr e = fr.
Proof.
  unfold drives, known_kind, handle_event, phase_after, status_after.
  destruct (TODO_ID_PATTERN_search (content e)) as [t|]; [|done].
  rewrite bool_decide_eq_true_2 by eauto. cbv zeta.
  repeat match goal with
         | |- context [String.eqb ?a ?b] => destruct (String.eqb a b)
         end; simpl; try done;
    eexists _, _, _; split_and!; reflexivity.
Qed.

Lemma effect_assigned (fr fr1 : Frame) (t : string) (st : option string) :
  todo_status fr1 = todo_status fr → snapshots fr1 = snapshots fr →
  heap fr1 = match st with
             | Some v => setitem (todo_status fr) t v (heap fr)
             | None => heap fr
             end →
  assigned fr fr1.
Proof.
  intros H1 H2 H3. unfold assigned. split_and!; [done..|].
  destruct st; [right|left]; eauto.
Qed.

Lemma effect_acc (fr fr1 : Frame) (t : string) (st : option string) :
  wf fr → todo_status fr1 = todo_status fr →
  heap fr1 = match st with
             | Some v => setitem (todo_status fr) t v (heap fr)
             | None => heap fr
             end →
  acc fr1 = match st with
            | Some v => <[t := v]> (acc fr)
            | None => acc fr
            end.
Proof.
  intros (Hts & Hlen & _) H1 H3. unfold acc. rewrite H1, H3, Hts.
  destruct st; [|done]. unfold setitem.
  by rewrite list_lookup_total_alter_eq.
Qed.

(** A round of a driving event appends one snapshot holding the phase,
    the active item and the statuses just set. *)
Lemma handle_event_driven (fr : Frame) (e : EventRecord) :
  wf fr → drives e = true →
  ∃ t s,
    TODO_ID_PATTERN_search (content e) = Some t
    ∧ dicts (handle_event fr e) = dicts fr ++ [s]
    ∧ snap_timestamp s = timestamp e
    ∧ phase s = phase_after e
    ∧ phase_var (handle_event fr e) = phase_after e
    ∧ todo_statuses s = acc (handle_event fr e)
    ∧ acc (handle_event fr e)
      = match status_after e with
        | Some v => <[t := v]> (acc fr)
        | None => acc fr
        end
    ∧ active_todo s = active_todo_var (handle_event fr e)
    ∧ active_todo_var (handle_event fr e)
      = if String.eqb (payload_type e) "coder_payload" then Some t
        else active_todo_var fr.
Proof.
  intros Hwf Hd. pose proof (handle_event_effect fr e) as He.
  rewrite Hd in He.
  destruct He as (t & note & fr1 & Hid & -> & H1 & H2 & H3 & H4 & H5).
  pose proof (effect_assigned fr fr1 t _ H1 H2 H4) as Ha.
  destruct (dicts_append fr fr1 note (timestamp e) Hwf Ha) as [Hdicts Hacc].
  eexists t, _. split; [done|]. split; [exact Hdicts|]. simpl.
  rewrite Hacc, (effect_acc fr fr1 t _ Hwf H1 H4).
  unfold append_snapshot, dict_copy. simpl. by split_and!.
Qed.

Lemma handle_event_idle (fr : Frame) (e : EventRecord) :
  drives e = false → handle_event fr e = fr.
Proof.
  intros Hd. pose proof (handle_event_effect fr e) as He.
  by rewrite Hd in He.
Qed.


Definition stamp (s : StateSnapshot (gmap string string)) : string * string :=
  (snap_timestamp s, phase s).

Definition stamp_of (e : EventRecord) : string * string :=
  (timestamp e, phase_after e).

Lemma start_dicts (first : EventRecord) (rest : list EventRecord) :
  dicts (start_frame (first :: rest))
  = [{| snap_timestamp := timestamp first; phase := "bootstrap";
        active_todo := None; todo_statuses := ∅;
        note := "Captured session metadata from raw log." |}]
  ∧ acc (start_frame (first :: rest)) = ∅
  ∧ phase_var (start_frame (first :: rest)) = "bootstrap"
  ∧ active_todo_var (start_frame (first :: rest)) = None.
Proof.
  assert (Ha : assigned entry_frame entry_frame) by (unfold assigned; auto).
  destruct (dicts_append entry_frame entry_frame
              "Captured session metadata from raw log." (timestamp first)
              wf_entry Ha) as [Hd Hacc].
  simpl. rewrite Hd, Hacc. by split_and!.
Qed.

Lemma run_stamps (events : list EventRecord) (fr : Frame) :
  wf fr →
  stamp <$> dicts (foldl handle_event fr events)
  = (stamp <$> dicts fr)
    ++ (stamp_of <$> filter (λ e, drives e = true) events).
Proof.
  revert fr. induction events as [|e events IH]; intros fr Hwf.
  - simpl. by rewrite app_nil_r.
  - cbn [foldl]. destruct (handle_event_wf fr e Hwf) as [Hwf1 _].
    rewrite (IH _ Hwf1). destruct (drives e) eqn:Hd.
    + rewrite filter_cons_True by done.
      destruct (handle_event_driven fr e Hwf Hd)
        as (t & s & _ & -> & Hts & Hph & _).
      rewrite fmap_app, fmap_cons, <- app_assoc. simpl.
      unfold stamp at 2, stamp_of at 2. by rewrite Hts, Hph.
    + rewrite filter_cons_False by (by rewrite Hd).
      by rewrite (handle_event_idle fr e Hd).
Qed.

(** X13. The snapshots of a non-empty event list are one bootstrap
    snapshot stamped with the first event's timestamp, then one snapshot
    per event that carries an identifier and has one of the six kinds, in
    order, stamped with that event's timestamp and holding the phase that
    event alone determines; an empty list gives no snapshot. *)
Theorem snapshot_sequence (events : list EventRecord) :
  match events with
  | [] => state_snapshots events = []
  | first :: _ =>
      stamp <$> state_snapshots events
      = (timestamp first, "bootstrap")
        :: (stamp_of <$> filter (λ e, drives e = true) events)
  end.
Proof.
  destruct events as [|first rest]; [done|].
  change (state_snapshots (first :: rest))
    with (dicts (foldl handle_event (start_frame (first :: rest))
                   (first :: rest))).
  rewrite run_stamps by apply start_frame_wf.
  destruct (start_dicts first rest) as (-> & _). done.
Qed.

(** *** What a snapshot can hold *)

(** The values a snapshot, or the loop's variables, can hold after a run
    over events drawn from [all]. *)
Definition tracked (all : list EventRecord) (ph : string)
    (active : option string) (items : gmap string string) : Prop :=
  ph ∈ PHASES
  ∧ (∀ k v, items !! k = Some v →
       v ∈ STATUSES
       ∧ ∃ e, e ∈ all ∧ TODO_ID_PATTERN_search (content e) = Some k)
  ∧ (∀ t, active = Some t →
       is_Some (items !! t)
       ∧ ∃ e, e ∈ all ∧ payload_type e = "coder_payload"
              ∧ TODO_ID_PATTERN_search (content e) = Some t).

Definition tracked_snapshot (all : list EventRecord)
    (s : StateSnapshot (gmap string string)) : Prop :=
  tracked all (phase s) (active_todo s) (todo_statuses s).

Definition tracked_frame (all : list EventRecord) (fr : Frame) : Prop :=
  tracked all (phase_var fr) (active_todo_var fr) (acc fr)
  ∧ Forall (tracked_snapshot all) (dicts fr).

Lemma coder_payload_status (e : EventRecord) :
  String.eqb (payload_type e) "coder_payload" = true →
  status_after e = Some "in_progress".
Proof. unfold status_after. by intros ->. Qed.

Lemma handle_event_tracked (all : list EventRecord) (fr : Frame)
    (e : EventRecord) :
  wf fr → e ∈ all → tracked_frame all fr →
  tracked_frame all (handle_event fr e).
Proof.
  intros Hwf Hin [(Hph & Hitems & Hact) Hall].
  destruct (drives e) eqn:Hd;
    [|by rewrite (handle_event_idle fr e Hd)].
  destruct (handle_event_driven fr e Hwf Hd)
    as (t & s & Hid & Hdicts & _ & Hsph & Hvph & Hsitems & Hacc
        & Hsact & Hvact).
  assert (Hnew : tracked all (phase_var (handle_event fr e))
                   (active_todo_var (handle_event fr e))
                   (acc (handle_event fr e))).
  { rewrite Hvph, Hacc, Hvact. split_and!.
    - apply phase_after_closed.
    - intros k v. destruct (status_after e) as [v'|] eqn:Hst; [|by eauto].
      destruct (decide (k = t)) as [->|Hne].
      + rewrite lookup_insert_eq. intros [= <-]. split; [|by eauto].
        by apply (status_after_closed e).
      + rewrite lookup_insert_ne by done. by eauto.
    - intros t'.
      destruct (String.eqb (payload_type e) "coder_payload") eqn:Hk.
      + intros [= <-]. rewrite (coder_payload_status e Hk).
        rewrite lookup_insert_eq. split; [by eauto|].
        apply String.eqb_eq in Hk. by eauto.
      + intros Ht'. destruct (Hact t' Ht') as [[v Hv] Hev].
        split; [|done]. destruct (status_after e) as [v'|]; [|by eauto].
        destruct (decide (t' = t)) as [->|Hne].
        * rewrite lookup_insert_eq. by eauto.
        * rewrite lookup_insert_ne by done. by eauto. }
  split; [done|]. rewrite Hdicts. apply Forall_app. split; [done|].
  apply Forall_singleton. unfold tracked_snapshot.
  by rewrite Hsph, <- Hvph, Hsitems, Hsact.
Qed.

Lemma run_tracked (all events : list EventRecord) (fr : Frame) :
  wf fr → events ⊆ all → tracked_frame all fr →
  tracked_frame all (foldl handle_event fr events).
Proof.
  revert fr. induction events as [|e events IH]; intros fr Hwf Hsub Htr;
    [done|].
  cbn [foldl]. destruct (handle_event_wf fr e Hwf) as [Hwf1 _].
  apply IH; [done|set_solver|].
  apply handle_event_tracked; [done|set_solver|done].
Qed.

Lemma build_tracked (events : list EventRecord) :
  Forall (tracked_snapshot events) (state_snapshots events).
Proof.
  change (state_snapshots events)
    with (dicts (foldl handle_event (start_frame events) events)).
  apply run_tracked; [apply start_frame_wf|done|].
  destruct events as [|first rest].
  - split; [|constructor]. unfold tracked. simpl. unfold acc. simpl.
    split_and!; [unfold PHASES; set_solver|done|done].
  - destruct (start_dicts first rest) as (Hd & Hacc & Hph & Hact).
    assert (Hb : tracked (first :: rest) "bootstrap" None ∅).
    { unfold tracked. split_and!; [unfold PHASES; set_solver|done|done]. }
    split.
    + by rewrite Hph, Hact, Hacc.
    + rewrite Hd. by apply Forall_singleton.
Qed.

(** X14. Every snapshot's phase is one of bootstrap, planning, dispatch,
    verifying and escalating; every status it stores is one of pending,
    in_progress, verifying, blocked and complete; and every key of its
    statuses is the identifier found in some event of the input. *)
Theorem snapshot_values (events : list EventRecord) :
  Forall (λ s,
            phase s ∈ PHASES
            ∧ ∀ k v, todo_statuses s !! k = Some v →
                v ∈ STATUSES
                ∧ ∃ e, e ∈ events
                       ∧ TODO_ID_PATTERN_search (content e) = Some k)
    (state_snapshots events).
Proof.
  eapply Forall_impl; [apply build_tracked|].
  intros s (Hph & Hitems & _). done.
Qed.

(** X15. The active item of a snapshot always has a status in that
    snapshot, and it is the identifier of some coder_payload event of the
    input. *)
Theorem active_todo_tracked (events : list EventRecord) :
  Forall (λ s,
            ∀ t, active_todo s = Some t →
              is_Some (todo_statuses s !! t)
              ∧ ∃ e, e ∈ events ∧ payload_type e = "coder_payload"
                     ∧ TODO_ID_PATTERN_search (content e) = Some t)
    (state_snapshots events).
Proof.
  eapply Forall_impl; [apply build_tracked|].
  intros s (_ & _ & Hact). done.
Qed.

(** *** From one snapshot to the next *)









End MachineFacts.

(** ** The identifier pattern *)
Module PatternFacts.
Import PyStr Ingest.


Lemma prefix_append (p r : string) : String.prefix p (p +:+ r) = true.
Proof.
  induction p as [|a p IH]; simpl; [by destruct r|].
  by destruct (ascii_dec a a).
Qed.










End PatternFacts.

(** ** Reordered and clean event comparisons *)
Module MatchingFacts.
Import PyStr Compare DiffFacts PatternFacts.

Definition render_extra (key : EventKey) : string :=
  "Unexpected event " +:+ payload_type key +:+ " for " +:+ todo_id key
  +:+ " (" +:+ sender key +:+ "->" +:+ recipient key +:+ ")".

Lemma unconsumed_cons (k : EventKey) (keys : list EventKey) (c : bool)
    (flags : list bool) :
  unconsumed (k :: keys) (c :: flags)
  = (if c then [] else [k]) ++ unconsumed keys flags.
Proof.
  unfold unconsumed. simpl. rewrite filter_cons. by destruct c.
Qed.

Lemma unconsumed_fresh (keys : list EventKey) :
  unconsumed keys (replicate (length keys) false) = keys.
Proof.
  induction keys as [|k keys IH]; [done|].
  simpl. rewrite unconsumed_cons, IH. done.
Qed.

Lemma unconsumed_insert (keys : list EventKey) :
  ∀ consumed idx k,
    consumed !! idx = Some false → keys !! idx = Some k →
    unconsumed keys consumed
    ≡ₚ k :: unconsumed keys (<[idx := true]> consumed).
Proof.
  induction keys as [|k0 keys IH]; intros [|c consumed] idx k Hc Hk;
    try done.
  destruct idx as [|idx]; simpl in Hc, Hk.
  - injection Hc as ->. injection Hk as ->. simpl.
    by rewrite !unconsumed_cons.
  - simpl. rewrite !unconsumed_cons. rewrite (IH consumed idx k Hc Hk).
    destruct c; simpl; [done|]. apply perm_swap.
Qed.

Lemma elem_of_unconsumed (keys : list EventKey) :
  ∀ consumed k,
    k ∈ unconsumed keys consumed →
    ∃ j, keys !! j = Some k ∧ consumed !! j = Some false.
Proof.
  induction keys as [|k0 keys IH]; intros [|c consumed] k Hin;
    try (by apply elem_of_nil in Hin).
  rewrite unconsumed_cons in Hin. apply elem_of_app in Hin as [Hin|Hin].
  - destruct c; [by apply elem_of_nil in Hin|].
    apply list_elem_of_singleton in Hin as ->. by exists 0.
  - destruct (IH consumed k Hin) as (j & ? & ?). by exists (S j).
Qed.

(** No candidate is left for a baseline key exactly when no unconsumed
    actual key has its slot. *)
Lemma candidate_of_unconsumed (keys : list EventKey) (consumed : list bool)
    (b k : EventKey) :
  k ∈ unconsumed keys consumed → slot k = slot b →
  ∃ j, candidate keys consumed b j.
Proof.
  intros Hin Hs. destruct (elem_of_unconsumed keys consumed k Hin)
    as (j & Hk & Hc).
  exists j. split; [done|]. by exists k.
Qed.

Lemma first_candidate_unconsumed (keys : list EventKey)
    (consumed : list bool) (b k : EventKey) (idx : nat) :
  first_candidate keys consumed b idx → keys !! idx = Some k →
  slot k = slot b
  ∧ unconsumed keys consumed
    ≡ₚ k :: unconsumed keys (<[idx := true]> consumed).
Proof.
  intros [(Hc & k' & Hk' & Hs) _] Hk.
  rewrite Hk in Hk'. injection Hk' as <-.
  split; [done|]. by apply unconsumed_insert.
Qed.

(** The result of [compare_events] as a greedy run and the rendering of
    the keys it leaves unconsumed. *)
Lemma compare_events_run (baseline actual : list Event) :
  let keys := extract_event_key <$> actual in
  ∃ fs final,
    compare_events baseline actual = (fs, render_extra <$> unconsumed keys final)
    ∧ greedy keys (replicate (length keys) false)
        (extract_event_key <$> baseline) fs final.
Proof.
  simpl. unfold compare_events, matching.
  set (keys := extract_event_key <$> actual).
  destruct (match_run keys (extract_event_key <$> baseline)
              (replicate (length keys) false) []
              ltac:(by rewrite length_replicate))
    as (fs & final & -> & Hg & Hlen).
  exists fs, final. simpl. split; [|done].
  rewrite (extra_from_spec keys final 0) by lia. by rewrite drop_0.
Qed.

Definition is_routing_finding (f : string) : Prop :=
  startswith "Routing mismatch for " f = true.

Lemma routing_finding_form (rest : string) :
  is_routing_finding ("Routing mismatch for " +:+ rest).
Proof. apply prefix_append. Qed.

(** When the baseline keys left to match and the unconsumed actual keys
    have the same slots up to order, every baseline key finds a partner and
    no actual key is left. *)
Lemma greedy_same_slots (keys : list EventKey) (consumed : list bool)
    (bs : list EventKey) (fs : list string) (final : list bool) :
  greedy keys consumed bs fs final →
  slot <$> bs ≡ₚ slot <$> unconsumed keys consumed →
  unconsumed keys final = [] ∧ Forall is_routing_finding fs.
Proof.
  induction 1 as [consumed|consumed b bs idx k fs final Hf Hk Hs Hr Hg IH
                  |consumed b bs idx k fs final Hf Hk Hr Hg IH
                  |consumed b bs fs final Hno Hg IH]; intros Hp.
  - split; [|constructor]. simpl in Hp.
    apply Permutation_nil_l in Hp. symmetry in Hp.
    by apply fmap_nil_inv in Hp.
  - destruct (first_candidate_unconsumed _ _ _ _ _ Hf Hk) as [Hslot Hu].
    apply IH. rewrite Hu in Hp. simpl in Hp. rewrite Hslot in Hp.
    by apply Permutation_cons_inv in Hp.
  - destruct (first_candidate_unconsumed _ _ _ _ _ Hf Hk) as [Hslot Hu].
    destruct IH as [IH1 IH2].
    { rewrite Hu in Hp. simpl in Hp. rewrite Hslot in Hp.
      by apply Permutation_cons_inv in Hp. }
    split; [done|]. constructor; [|done].
    apply routing_finding_form.
  - exfalso. assert (Hin : slot b ∈ slot <$> unconsumed keys consumed).
    { rewrite <- Hp. simpl. apply list_elem_of_here. }
    apply list_elem_of_fmap in Hin as (k & Hs & Hin).
    destruct (candidate_of_unconsumed keys consumed b k Hin) as [j Hj];
      [done|].
    by apply (Hno j).
Qed.

Lemma slot_inj (l : list EventKey) (k b : EventKey) :
  NoDup (slot <$> l) → k ∈ l → b ∈ l → slot k = slot b → k = b.
Proof.
  intros Hnd Hk Hb Hs.
  apply list_elem_of_lookup in Hk as [i Hi].
  apply list_elem_of_lookup in Hb as [j Hj].
  assert (i = j) as ->.
  { eapply (NoDup_lookup _ i j (slot k)); [exact Hnd|..].
    - by rewrite list_lookup_fmap, Hi.
    - by rewrite list_lookup_fmap, Hj, Hs. }
  congruence.
Qed.

(** When the baseline keys left to match are the unconsumed actual keys
    up to order and no two of them share a slot, the run reports
    nothing. *)
Lemma greedy_same_keys (keys : list EventKey) (consumed : list bool)
    (bs : list EventKey) (fs : list string) (final : list bool) :
  greedy keys consumed bs fs final →
  bs ≡ₚ unconsumed keys consumed → NoDup (slot <$> bs) →
  unconsumed keys final = [] ∧ fs = [].
Proof.
  induction 1 as [consumed|consumed b bs idx k fs final Hf Hk Hs Hr Hg IH
                  |consumed b bs idx k fs final Hf Hk Hr Hg IH
                  |consumed b bs fs final Hno Hg IH]; intros Hp Hnd.
  - split; [|done]. by apply Permutation_nil_l in Hp.
  - destruct (first_candidate_unconsumed _ _ _ _ _ Hf Hk) as [Hslot Hu].
    assert (k = b) as ->.
    { apply (slot_inj (b :: bs)); [done| |apply list_elem_of_here|done].
      rewrite Hp, Hu. apply list_elem_of_here. }
    apply IH.
    + rewrite Hu in Hp. by apply Permutation_cons_inv in Hp.
    + simpl in Hnd. by apply NoDup_cons in Hnd as [_ ?].
  - destruct (first_candidate_unconsumed _ _ _ _ _ Hf Hk) as [Hslot Hu].
    assert (k = b) as ->.
    { apply (slot_inj (b :: bs)); [done| |apply list_elem_of_here|done].
      rewrite Hp, Hu. apply list_elem_of_here. }
    by destruct Hr.
  - exfalso. assert (Hin : b ∈ unconsumed keys consumed).
    { rewrite <- Hp. apply list_elem_of_here. }
    destruct (candidate_of_unconsumed keys consumed b b Hin) as [j Hj];
      [done|].
    by apply (Hno j).
Qed.

Lemma key_eq (k b : EventKey) :
  slot k = slot b → sender k = sender b → recipient k = recipient b →
  k = b.
Proof.
  destruct k, b. unfold slot. simpl. intros [= -> ->] -> ->. done.
Qed.

(** A run that reports nothing has paired every baseline key with an
    equal actual key. *)
Lemma greedy_clean (keys : list EventKey) (bs : list EventKey) :
  ∀ consumed final,
    greedy keys consumed bs [] final →
    unconsumed keys consumed ≡ₚ bs ++ unconsumed keys final.
Proof.
  induction bs as [|b bs IH]; intros consumed final Hg.
  - by inversion Hg; subst.
  - inversion Hg as [|? ? ? idx k ? ? Hf Hk Hs Hr Hg'| |]; subst.
    destruct (first_candidate_unconsumed _ _ _ _ _ Hf Hk) as [Hslot Hu].
    rewrite Hu, (IH _ _ Hg'). simpl.
    by rewrite (key_eq k b Hslot Hs Hr).
Qed.

(** X18. When the actual events have the same payload types and TODO
    ids as the baseline events up to order, the comparison reports no
    unexpected event and no missing event: every finding left is a routing
    mismatch. *)
Theorem compare_events_same_slots (baseline actual : list Event) :
  slot <$> (extract_event_key <$> baseline)
    ≡ₚ slot <$> (extract_event_key <$> actual) →
  (compare_events baseline actual).2 = []
  ∧ Forall is_routing_finding (compare_events baseline actual).1.
Proof.
  intros Hp.
  destruct (compare_events_run baseline actual) as (fs & final & -> & Hg).
  simpl.
  destruct (greedy_same_slots _ _ _ _ _ Hg) as [-> Hfs]; [|done].
  by rewrite unconsumed_fresh.
Qed.

(** X19. When the actual events have the same keys as the baseline
    events up to order and no two baseline events share a payload type and
    TODO id, the comparison reports nothing. *)
Theorem compare_events_reordered (baseline actual : list Event) :
  extract_event_key <$> baseline ≡ₚ extract_event_key <$> actual →
  NoDup (slot <$> (extract_event_key <$> baseline)) →
  compare_events baseline actual = ([], []).
Proof.
  intros Hp Hnd.
  destruct (compare_events_run baseline actual) as (fs & final & -> & Hg).
  destruct (greedy_same_keys _ _ _ _ _ Hg) as [-> ->]; [|done..].
  by rewrite unconsumed_fresh.
Qed.

(** X20. A comparison that reports nothing guarantees that the actual
    events have exactly the keys of the baseline events, up to order. *)
Theorem compare_events_clean (baseline actual : list Event) :
  compare_events baseline actual = ([], []) →
  extract_event_key <$> actual ≡ₚ extract_event_key <$> baseline.
Proof.
  intros Hc.
  destruct (compare_events_run baseline actual) as (fs & final & Hrun & Hg).
  rewrite Hrun in Hc. injection Hc as -> Hex.
  apply fmap_nil_inv in Hex.
  pose proof (greedy_clean _ _ _ _ Hg) as Hp.
  rewrite unconsumed_fresh, Hex, app_nil_r in Hp. done.
Qed.

Definition keyed_event (kind text from to : string) : Event :=
  {| ev_payload_type := kind; ev_content := text; ev_sender := from;
     ev_recipient := to |}.

Definition first_task : Event :=
  keyed_event "coder_payload" "TODO ID: todo-1" "orchestrator" "coder".

Definition second_task : Event :=
  keyed_event "coder_payload" "TODO ID: todo-2" "orchestrator" "coder".

Definition second_task_rerouted : Event :=
  keyed_event "coder_payload" "TODO ID: todo-2" "orchestrator" "tester".

Lemma compare_events_same_slots_witness :
  (compare_events [first_task; second_task]
     [second_task_rerouted; first_task]).2 = []
  ∧ Forall is_routing_finding
      (compare_events [first_task; second_task]
         [second_task_rerouted; first_task]).1.
Proof.
  apply compare_events_same_slots. vm_compute. apply perm_swap.
Defined.

Lemma compare_events_reordered_witness :
  compare_events [first_task; second_task] [second_task; first_task]
  = ([], []).
Proof.
  apply compare_events_reordered.
  - vm_compute. apply perm_swap.
  - vm_compute. apply NoDup_cons. split; [|apply NoDup_singleton].
    rewrite list_elem_of_singleton. discriminate.
Defined.

Lemma compare_events_clean_witness :
  extract_event_key <$> [second_task; first_task]
  ≡ₚ extract_event_key <$> [first_task; second_task].
Proof.
  apply compare_events_clean. vm_compute. reflexivity.
Defined.

End MatchingFacts.

(** ** Truncated, extended and clean snapshot comparisons *)
Module SnapshotDiffFacts.
Import PyStr Compare.

(** Two snapshots the comparison does not tell apart. *)
Definition agree (b a : Snapshot) : Prop :=
  phase b = phase a ∧ todo_statuses b = todo_statuses a.

Definition missing_snapshot (position : nat) (b : Snapshot) : string :=
  "Missing state snapshot #" +:+ pretty position +:+ " (phase "
  +:+ phase b +:+ ") in actual run.".

Section Snapshots.
Variable dict_repr : gmap string string → string.

Lemma issues_app (pre more actual : list Snapshot) :
  ∀ idx,
    snapshot_issues_from dict_repr idx (pre ++ more) actual
    = snapshot_issues_from dict_repr idx pre actual
      ++ snapshot_issues_from dict_repr (idx + length pre) more actual.
Proof.
  induction pre as [|b pre IH]; intros idx; simpl.
  - by rewrite Nat.add_0_r.
  - rewrite IH, <- app_assoc. do 3 f_equal. lia.
Qed.

(** The loop reports nothing exactly when the baseline snapshots agree,
    one by one, with the actual snapshots from index [idx] on. *)
Lemma issues_nil (baseline actual : list Snapshot) :
  ∀ idx,
    snapshot_issues_from dict_repr idx baseline actual = []
    ↔ Forall2 agree baseline (take (length baseline) (drop idx actual))
      ∧ idx + length baseline ≤ length actual
        ∨ baseline = [].
Proof.
  induction baseline as [|b baseline IH]; intros idx.
  - simpl. split; [by right|done].
  - cbn [snapshot_issues_from length].
    destruct (actual !! idx) as [a|] eqn:Ha.
    + pose proof (lookup_lt_Some _ _ _ Ha) as Hlt.
      rewrite (drop_S actual a idx Ha). cbn [take].
      rewrite app_nil, app_nil, IH.
      split.
      * intros ((Hph & Htd) & Hrest).
        left. split; [|destruct Hrest as [[_ ?]| ->]; simpl; lia].
        constructor.
        -- split.
           ++ destruct (decide (phase b ≠ phase a)) as [Hne|He].
              ** by rewrite bool_decide_eq_true_2 in Hph.
              ** by destruct (decide (phase b = phase a)).
           ++ destruct (decide (todo_statuses b ≠ todo_statuses a))
                as [Hne|He].
              ** by rewrite bool_decide_eq_true_2 in Htd.
              ** by destruct (decide (todo_statuses b = todo_statuses a)).
        -- destruct Hrest as [[? _]| ->]; [done|]. constructor.
      * intros [[Hall Hlen]|]; [|done].
        apply Forall2_cons in Hall as [[Hph Htd] Hall].
        split_and!.
        -- rewrite bool_decide_eq_false_2; [done|]. intros H. by apply H.
        -- rewrite bool_decide_eq_false_2; [done|]. intros H. by apply H.
        -- left. split; [done|lia].
    + pose proof (lookup_ge_None_1 _ _ Ha) as Hge.
      split; [done|]. intros [[_ Hlen]|]; [lia|done].
Qed.

Lemma issues_past_end (more actual : list Snapshot) :
  ∀ idx, length actual ≤ idx →
    snapshot_issues_from dict_repr idx more actual
    = imap (λ i b, missing_snapshot (idx + i + 1) b) more.
Proof.
  induction more as [|b more IH]; intros idx Hidx; [done|].
  cbn [snapshot_issues_from imap].
  rewrite (lookup_ge_None_2 actual idx) by lia.
  rewrite IH by lia. simpl. rewrite Nat.add_0_r. f_equal.
  apply imap_ext. intros i x _. simpl. f_equal. lia.
Qed.

(** The loop reports nothing and the actual run is not longer exactly
    when the two runs agree snapshot by snapshot. *)
Lemma agreeing_runs (baseline actual : list Snapshot) :
  snapshot_issues_from dict_repr 0 baseline actual = []
  ∧ (length baseline <? length actual) = false
  ↔ Forall2 agree baseline actual.
Proof.
  rewrite issues_nil, drop_0, Nat.ltb_ge. split.
  - intros [[[Hall Hge]| ->] Hlen].
    + by rewrite take_ge in Hall by (simpl in Hge; lia).
    + destruct actual; [constructor|simpl in Hlen; lia].
  - intros Hall. pose proof (Forall2_length _ _ _ Hall) as Hlen.
    split; [|lia]. left. split; [|simpl; lia]. by rewrite take_ge by lia.
Qed.

(** X21. The snapshot comparison reports nothing exactly when the two
    runs have the same number of snapshots and each baseline snapshot has
    the phase and the TODO statuses of the actual snapshot at its
    position. *)
Theorem compare_state_snapshots_clean (baseline actual : list Snapshot) :
  compare_state_snapshots dict_repr baseline actual = []
  ↔ Forall2 agree baseline actual.
Proof.
  unfold compare_state_snapshots. rewrite app_nil, <- agreeing_runs.
  destruct (length baseline <? length actual);
    split; intros [? ?]; done.
Qed.

(** X22. When the actual run stops early but agrees with the baseline as
    far as it goes, the comparison reports exactly one missing snapshot per
    baseline snapshot past the end, numbered from one and naming its
    phase. *)
Theorem compare_state_snapshots_truncated
    (pre more actual : list Snapshot) :
  Forall2 agree pre actual →
  compare_state_snapshots dict_repr (pre ++ more) actual
  = imap (λ i b, missing_snapshot (length actual + i + 1) b) more.
Proof.
  intros Hall. pose proof (Forall2_length _ _ _ Hall) as Hlen.
  unfold compare_state_snapshots. rewrite issues_app.
  rewrite (proj2 (issues_nil pre actual 0)).
  - rewrite issues_past_end by (simpl; lia).
    rewrite length_app, (proj2 (Nat.ltb_ge _ _)) by lia.
    rewrite app_nil_r. simpl. by rewrite Hlen.
  - left. rewrite drop_0, take_ge by lia. split; [done|simpl; lia].
Qed.

(** X23. When the actual run agrees with the whole baseline and then
    goes on, the comparison reports one finding only: the number of extra
    snapshots. *)
Theorem compare_state_snapshots_extended
    (baseline pre more : list Snapshot) :
  Forall2 agree baseline pre → more ≠ [] →
  compare_state_snapshots dict_repr baseline (pre ++ more)
  = ["Actual run contains " +:+ pretty (length more)
     +:+ " extra state snapshots."].
Proof.
  intros Hall Hmore. pose proof (Forall2_length _ _ _ Hall) as Hlen.
  unfold compare_state_snapshots.
  rewrite (proj2 (issues_nil baseline (pre ++ more) 0)).
  - rewrite length_app.
    assert (0 < length more) by (destruct more; [done|simpl; lia]).
    rewrite (proj2 (Nat.ltb_lt _ _)) by lia.
    by replace (length pre + length more - length baseline)
      with (length more) by lia.
  - left. rewrite drop_0, Hlen, take_app_length.
    split; [done|]. rewrite length_app. simpl. lia.
Qed.

End Snapshots.

Definition sample_snapshot (ph status : string) : Snapshot :=
  {| phase := ph; todo_statuses := {["todo-1" := status]} |}.

Definition short_run : list Snapshot :=
  [sample_snapshot "bootstrap" "pending";
   sample_snapshot "dispatch" "in_progress"].

Definition tail_run : list Snapshot :=
  [sample_snapshot "verifying" "verifying";
   sample_snapshot "dispatch" "complete"].

Lemma short_run_agrees : Forall2 agree short_run short_run.
Proof. repeat constructor. Qed.

Lemma compare_state_snapshots_truncated_witness :
  compare_state_snapshots (λ _, EmptyString) (short_run ++ tail_run)
    short_run
  = imap (λ i b, missing_snapshot (length short_run + i + 1) b) tail_run.
Proof.
  apply compare_state_snapshots_truncated. apply short_run_agrees.
Defined.

Lemma compare_state_snapshots_extended_witness :
  compare_state_snapshots (λ _, EmptyString) short_run
    (short_run ++ tail_run)
  = ["Actual run contains " +:+ pretty (length tail_run)
     +:+ " extra state snapshots."].
Proof.
  apply compare_state_snapshots_extended;
    [apply short_run_agrees|discriminate].
Defined.

End SnapshotDiffFacts.

(** ** What the confirmation line guarantees *)
Module ReportFacts.
Import PyStr Compare DiffFacts MatchingFacts SnapshotDiffFacts.

Section Snapshots.
Variable dict_repr : gmap string string → string.

Lemma findings_fields (baseline actual : Workflow) :
  let f := findings dict_repr baseline actual in
  (missing_events f, extra_events f)
  = compare_events (events baseline) (events actual)
  ∧ validation_failures f
    = collect_validation_failures (validations actual)
  ∧ state_diffs f
    = compare_state_snapshots dict_repr (state_snapshots baseline)
        (state_snapshots actual).
Proof.
  simpl. unfold findings.
  by destruct (compare_events (events baseline) (events actual)).
Qed.

Lemma matches_baseline_true (f : Findings) :
  matches_baseline f = true
  ↔ missing_events f = [] ∧ extra_events f = []
    ∧ validation_failures f = [] ∧ state_diffs f = [].
Proof.
  unfold matches_baseline. rewrite !andb_true_iff, !bool_decide_eq_true.
  tauto.
Qed.

(** X24. When the comparison prints its confirmation line, the actual
    run has the baseline's event keys up to order, its snapshots agree one
    by one with the baseline's in phase and TODO statuses, and all its
    validations passed; and these three conditions make it print the line
    whenever no two baseline events share a payload type and TODO id. *)
Theorem confirmation_line (baseline actual : Workflow) :
  let clean :=
    extract_event_key <$> events actual
      ≡ₚ extract_event_key <$> events baseline
    ∧ Forall2 agree (state_snapshots baseline) (state_snapshots actual)
    ∧ Forall (λ v, status v = "pass") (validations actual) in
  (matches_baseline (findings dict_repr baseline actual) = true → clean)
  ∧ (NoDup (slot <$> (extract_event_key <$> events baseline)) →
     clean → matches_baseline (findings dict_repr baseline actual) = true).
Proof.
  simpl. rewrite matches_baseline_true.
  destruct (findings_fields baseline actual) as (Hev & -> & ->).
  rewrite SelfFacts.collect_validation_failures_nil.
  assert (Hsnap : ∀ b a, compare_state_snapshots dict_repr b a = []
                         ↔ Forall2 agree b a).
  { intros b a. unfold compare_state_snapshots.
    rewrite app_nil, <- (agreeing_runs dict_repr).
    destruct (length b <? length a); split; intros [? ?]; done. }
  rewrite Hsnap.
  destruct (compare_events_run (events baseline) (events actual))
    as (fs & final & Hrun & Hg).
  rewrite Hrun in Hev. injection Hev as -> ->.
  split.
  - intros (-> & Hex & Hval & Hst). split_and!; [|done..].
    apply fmap_nil_inv in Hex.
    pose proof (greedy_clean _ _ _ _ Hg) as Hp.
    by rewrite unconsumed_fresh, Hex, app_nil_r in Hp.
  - intros Hnd (Hp & Hst & Hval).
    destruct (greedy_same_keys _ _ _ _ _ Hg) as [-> ->]; [|done..].
    by rewrite unconsumed_fresh.
Qed.

End Snapshots.

End ReportFacts.
